(** * Iterative matrix inversion: Ben-Israel and Schultz methods

    A shallow embedding of [gen_inv] (Ben_Israel_method.py) and
    [shultz_inv] (Shultz_method.py).  Scalars are IEEE-754 binary64
    numbers, as numpy's float64; a two-dimensional array is a list of
    rows.  The dense primitives of numpy that the two functions call are
    written out on lists; the two LAPACK-backed ones (rank, determinant)
    are parameters of the development.  [LA.matrix_rank] may raise
    [LinAlgError] (its SVD does not converge on an array with a NaN);
    [gen_inv] has no handler for it, so a call can end by that
    exception.

    Arithmetic is numpy's under its default error state: a division by
    zero or an invalid operation delivers an infinity or a NaN (with a
    warning) and raises nothing.  The flag [show_explanation] only
    switches printing on; the lines it prints per iteration are kept as
    the report of a call, whatever the flag. *)

From Stdlib Require Import ZArith List Lia Bool Floats.
Import ListNotations.

#[local] Set Warnings "-inexact-float".
#[local] Open Scope float_scope.

(** ** The numpy primitives *)

Module NumPy.

(** A 2-D array of float64, row-major.  The arrays of the two
    algorithms have at least one row and one column. *)
Definition ndarray := list (list float).

(** [a.shape] *)
Definition shape (a : ndarray) : nat * nat := (length a, length (hd [] a)).

(** [min(t)] and [t.index(v)] on a pair. *)
Definition tuple_min (t : nat * nat) : nat := Nat.min (fst t) (snd t).

Definition tuple_index (t : nat * nat) (v : nat) : nat :=
  if Nat.eqb (fst t) v then 0%nat else 1%nat.

(** Truth value of a Python integer. *)
Definition truthy (n : nat) : bool := negb (Nat.eqb n 0).

Definition column (j : nat) (a : ndarray) : list float :=
  map (fun r => nth j r 0) a.

(** [a.transpose()] *)
Definition transpose (a : ndarray) : ndarray :=
  map (fun j => column j a) (seq 0 (snd (shape a))).

(** Inner product of two vectors, accumulated from the left. *)
Definition inner (u v : list float) : float :=
  fold_left (fun acc xy => acc + fst xy * snd xy) (combine u v) 0.

(** [a.dot(b)] *)
Definition dot (a b : ndarray) : ndarray :=
  map (fun r => map (inner r) (transpose b)) a.

(** [np.subtract(a, b)] on arrays of one shape. *)
Definition subtract (a b : ndarray) : ndarray :=
  map (fun rs => map (fun xy => fst xy - snd xy) (combine (fst rs) (snd rs)))
      (combine a b).

(** [c * a] for a scalar [c]. *)
Definition scale (c : float) (a : ndarray) : ndarray := map (map (mul c)) a.

(** [np.eye(n)] *)
Definition eye (n : nat) : ndarray :=
  map (fun i => map (fun j => if Nat.eqb i j then 1 else 0) (seq 0 n))
      (seq 0 n).

(** [np.add.reduce] along a row. *)
Definition add_reduce (l : list float) : float := fold_left add l 0.

(** [np.maximum]: a NaN operand wins. *)
Definition maximum (x y : float) : float :=
  if is_nan x then x else if is_nan y then y else if x <? y then y else x.

(** [np.maximum.reduce]; numpy refuses the empty array, which the
    algorithms never build. *)
Definition maximum_reduce (l : list float) : float :=
  match l with
  | [] => nan
  | x :: xs => fold_left maximum xs x
  end.

(** [LA.norm(a, ord='fro')]: the root of the flattened array dotted
    with itself. *)
Definition norm_fro (a : ndarray) : float :=
  let x := concat a in sqrt (inner x x).

(** [LA.norm(a, np.inf)]: the largest absolute row sum. *)
Definition norm_inf (a : ndarray) : float :=
  maximum_reduce (map (fun r => add_reduce (map abs r)) a).

End NumPy.

Import NumPy.

(** ** Stand-ins for the LAPACK routines

    Rank and determinant by elimination on the first non-zero entry
    of each column.  They are exact on the small integer matrices used
    as test data below, where they serve as [LA.matrix_rank] and
    [LA.det].  [det_lu] eliminates the way LAPACK does, on the row with
    the largest leading entry, and so rounds where LAPACK rounds. *)

Module Reference.

(** The first row whose leading entry is not zero: its index, the
    row, and the other rows in their order. *)
Fixpoint find_pivot (a : ndarray) : option (nat * list float * ndarray) :=
  match a with
  | [] => None
  | r :: rs =>
      if hd 0 r =? 0 then
        match find_pivot rs with
        | Some (i, p, others) => Some (S i, p, r :: others)
        | None => None
        end
      else Some (0%nat, r, rs)
  end.

(** Row [r] less the multiple of the pivot row [p] that clears its
    leading entry; the leading column is dropped. *)
Definition reduce (p r : list float) : list float :=
  let c := hd 0 r / hd 0 p in
  map (fun xy => fst xy - c * snd xy) (combine (tl r) (tl p)).

Fixpoint rank_aux (cols : nat) (a : ndarray) : nat :=
  match cols with
  | O => 0%nat
  | S cols' =>
      match find_pivot a with
      | Some (_, p, others) => S (rank_aux cols' (map (reduce p) others))
      | None => rank_aux cols' (map (@tl float) a)
      end
  end.

Definition rank (a : ndarray) : nat := rank_aux (snd (shape a)) a.

Fixpoint det_aux (n : nat) (a : ndarray) : float :=
  match n with
  | O => 1
  | S n' =>
      match find_pivot a with
      | Some (i, p, others) =>
          (if Nat.even i then 1 else -1) * hd 0 p
          * det_aux n' (map (reduce p) others)
      | None => 0
      end
  end.

Definition det (a : ndarray) : float := det_aux (length a) a.

(** [LA.matrix_rank] on the test data: the SVD behind it does not
    converge on an array with a NaN, and [LinAlgError] is raised
    ([None]). *)
Definition matrix_rank (a : ndarray) : option nat :=
  if existsb (existsb is_nan) a then None else Some (rank a).

(** The determinant from the factorisation [LA.det] asks LAPACK for: LU
    with partial pivoting (the row with the largest leading entry in
    absolute value comes first), then the product of the pivots with
    the sign of the row exchanges.  It is zero only when a pivot is. *)
Fixpoint argmax_abs (best : nat) (bestv : float) (i : nat) (a : ndarray)
  : nat :=
  match a with
  | [] => best
  | r :: rs =>
      let v := abs (hd 0 r) in
      if bestv <? v then argmax_abs i v (S i) rs
      else argmax_abs best bestv (S i) rs
  end.

Definition pivot_index (a : ndarray) : nat :=
  match a with
  | [] => 0%nat
  | r :: rs => argmax_abs 0 (abs (hd 0 r)) 1 rs
  end.

(** Rows 0 and [i] exchanged. *)
Definition swap0 (i : nat) (a : ndarray) : ndarray :=
  match i, a with
  | O, _ => a
  | S j, r0 :: rs => nth j rs [] :: (firstn j rs ++ r0 :: skipn (S j) rs)
  | _, [] => []
  end.

Fixpoint det_lu_aux (n : nat) (a : ndarray) : float :=
  match n with
  | O => 1
  | S n' =>
      let i := pivot_index a in
      match swap0 i a with
      | [] => 1
      | p :: rs =>
          if hd 0 p =? 0 then 0
          else (if Nat.eqb i 0 then 1 else -1)
               * (hd 0 p * det_lu_aux n' (map (reduce p) rs))
      end
  end.

Definition det_lu (a : ndarray) : float := det_lu_aux (length a) a.

End Reference.

(** ** Classes of binary64 values

    The classes the degenerate case of the sigma computation turns on,
    on primitive floats and on their specification ([spec_float]). *)

Module Float64.

Definition zero_or_nan (x : float) : bool := is_zero x || is_nan x.

(** Zeros, positive numbers, plus infinity, or NaN: what [abs] and
    sums of such values deliver. *)
Definition nonneg_or_nan (x : float) : bool := (0 <=? x) || is_nan x.

Definition sf_zero (x : spec_float) : bool :=
  match x with S754_zero _ => true | _ => false end.

Definition sf_nan (x : spec_float) : bool :=
  match x with S754_nan => true | _ => false end.

Definition sf_nonneg (x : spec_float) : bool :=
  match x with
  | S754_zero _ => true
  | S754_nan => false
  | S754_infinity s | S754_finite s _ _ => negb s
  end.

(** Every entry of an array is in a class. *)
Definition every_entry (P : float -> bool) (a : ndarray) : Prop :=
  Forall (Forall (fun x => P x = true)) a.

End Float64.

Import Float64.

(** ** State of the loops *)

(** The variables both loops assign. *)
Record locals := mk_locals { approx : ndarray; sigma : float; k : Z }.

(** What [show_explanation] prints at the end of an iteration: the
    counter, sigma and the approximation. *)
Definition entry := (Z * float * ndarray)%type.

Definition entry_of (s : locals) : entry := (k s, sigma s, approx s).

(** The end of a call: the value returned ([None] is Python's [None]),
    the variables at the [return] and the iterations reported.
    [Rejected] is a [return None] ahead of the loop set-up; [Raised] is
    a [LinAlgError] that leaves the call, with the variables and the
    report at that point; [OutOfFuel] is the model's loop bound running
    out. *)
Inductive outcome :=
| Returned (result : option ndarray) (final : locals) (report : list entry)
| Rejected
| OutOfFuel
| Raised (final : locals) (report : list entry).

(** The array a call returns, when it returns one. *)
Definition result_of (o : outcome) : option ndarray :=
  match o with
  | Returned r _ _ => r
  | Rejected | OutOfFuel => None
  | Raised _ _ => None
  end.

Definition report_of (o : outcome) : list entry :=
  match o with
  | Returned _ _ log => log
  | Rejected | OutOfFuel => []
  | Raised _ log => log
  end.

(** How a pass through the body of a loop ends: at its last statement
    ([Next], back to the test), by a [return None] inside it, or by an
    exception. *)
Inductive pass :=
| Next (s : locals)
| ReturnNone (s : locals)
| Raises (s : locals).

(** The starting point shared by the two functions:
    [alpha = 1.8 / frobenius_norm ** 2] and
    [approx = alpha * original.transpose()].  The square is the
    product of the norm with itself. *)
Definition initial_alpha (original : ndarray) : float :=
  let frobenius_norm := norm_fro original in
  1.8 / (frobenius_norm * frobenius_norm).

Definition initial_approx (original : ndarray) : ndarray :=
  let alpha := initial_alpha original in
  scale alpha (transpose original).

(** The variables as the loop finds them: [sigma = 1], [k = 0]. *)
Definition initial_locals (original : ndarray) : locals :=
  {| approx := initial_approx original; sigma := 1; k := 0 |}.

(** [sigma = numerator / denominator] of an iteration that replaced
    [approx_copy] by [approx']. *)
Definition relative_change (approx' approx_copy : ndarray) : float :=
  let numerator := norm_inf (subtract approx' approx_copy) in
  let denominator := norm_inf approx_copy in
  numerator / denominator.

(** [while sigma >= tolerance and k < max_iterations]. *)
Definition loop_test (tolerance : float) (max_iterations : Z) (s : locals)
  : bool :=
  (tolerance <=? sigma s) && (k s <? max_iterations)%Z.

Section Loop.

(** One pass through the body. *)
Variable body : locals -> pass.

(** The statements after the loop. *)
Variable finish : locals -> list entry -> outcome.

Variables (tolerance : float) (max_iterations : Z).

(** The loop both functions run.  Each pass that reaches its end adds
    its line to the report.  [fuel] bounds the number of passes; the
    callers give [max_iterations] of it, which the test on [k] never
    lets run out. *)
Fixpoint while_loop (fuel : nat) (s : locals) (log : list entry) : outcome :=
  if loop_test tolerance max_iterations s then
    match fuel with
    | O => OutOfFuel
    | S fuel' =>
        match body s with
        | Next s' => while_loop fuel' s' (log ++ [entry_of s'])
        | ReturnNone s' => Returned None s' log
        | Raises s' => Raised s' log
        end
    end
  else finish s log.

(** The states in which the loop test is evaluated, from [s0] on. *)
Inductive reaches (s0 : locals) : locals -> Prop :=
| reaches_start : reaches s0 s0
| reaches_next s s' :
    reaches s0 s ->
    loop_test tolerance max_iterations s = true ->
    body s = Next s' ->
    reaches s0 s'.

End Loop.

(** What the branches of the body of [gen_inv] come to. *)
Inductive branch :=
| Update (x : ndarray)
| NoUpdate
| RankError.

Section Algorithms.

(** [LA.matrix_rank], [None] standing for the [LinAlgError] it raises
    when its SVD does not converge, and the determinant LAPACK computes
    for a square array. *)
Variable matrix_rank : ndarray -> option nat.
Variable lapack_det : ndarray -> float.

(** [LA.det]: [None] stands for the [LinAlgError] raised on an array
    that is not square. *)
Definition LA_det (a : ndarray) : option float :=
  if Nat.eqb (fst (shape a)) (snd (shape a)) then Some (lapack_det a)
  else None.

(** *** gen_inv *)

Definition m_or_n (original : ndarray) : nat := tuple_min (shape original).

Definition row_or_column (original : ndarray) : nat :=
  tuple_index (shape original) (m_or_n original).

(** The branch for full column rank. *)
Definition column_update (original approx : ndarray) : ndarray :=
  let unit := scale 2 (eye (m_or_n original)) in
  let a := dot approx original in
  let b := subtract unit a in
  dot b approx.

(** The branch for full row rank. *)
Definition row_update (original approx : ndarray) : ndarray :=
  let unit := scale 2 (eye (m_or_n original)) in
  let a := dot original approx in
  let b := subtract unit a in
  dot approx b.

(** [LA.matrix_rank(original) == m_or_n]; [None] when the call raises. *)
Definition rank_is_full (original : ndarray) : option bool :=
  match matrix_rank original with
  | Some r => Some (Nat.eqb r (m_or_n original))
  | None => None
  end.

(** Python's [b and c]: the right operand is evaluated, and can raise,
    only when the left one is true. *)
Definition py_and (b : bool) (c : option bool) : option bool :=
  if b then c else Some false.

(** The [if]/[elif]/[else] of the loop body: the next approximation,
    [NoUpdate] for the [return None] of the [else], [RankError] when a
    condition raises. *)
Definition gen_update (original approx : ndarray) : branch :=
  match py_and (truthy (row_or_column original)) (rank_is_full original) with
  | None => RankError
  | Some true => Update (column_update original approx)
  | Some false =>
      match py_and (negb (truthy (row_or_column original)))
                   (rank_is_full original) with
      | None => RankError
      | Some true => Update (row_update original approx)
      | Some false => NoUpdate
      end
  end.

(** One pass through the body of the loop of [gen_inv]. *)
Definition gen_body (original : ndarray) (s : locals) : pass :=
  let k' := (k s + 1)%Z in
  let approx_copy := approx s in
  match gen_update original (approx s) with
  | Update approx' =>
      Next {| approx := approx';
              sigma := relative_change approx' approx_copy;
              k := k' |}
  | NoUpdate => ReturnNone {| approx := approx s; sigma := sigma s; k := k' |}
  | RankError => Raises {| approx := approx s; sigma := sigma s; k := k' |}
  end.

(** The test after the loop: [sigma <= tolerance]. *)
Definition gen_finish (tolerance : float) (s : locals) (log : list entry)
  : outcome :=
  if sigma s <=? tolerance then Returned (Some (approx s)) s log
  else Returned None s log.

Definition gen_while (original : ndarray) (tolerance : float)
    (max_iterations : Z) : nat -> locals -> list entry -> outcome :=
  while_loop (gen_body original) (gen_finish tolerance)
             tolerance max_iterations.

Definition gen_inv_run (original : ndarray) (tolerance : float)
    (max_iterations : Z) : outcome :=
  gen_while original tolerance max_iterations (Z.to_nat max_iterations)
            (initial_locals original) [].

Definition gen_inv (original : ndarray) (tolerance : float)
    (max_iterations : Z) : option ndarray :=
  result_of (gen_inv_run original tolerance max_iterations).

(** *** shultz_inv *)

Definition shultz_update (original approx : ndarray) : ndarray :=
  let n := fst (shape original) in
  let unit := scale 2 (eye n) in
  let a := dot original approx in
  let b := subtract unit a in
  dot approx b.

(** One pass through the body of the loop of [shultz_inv]. *)
Definition shultz_body (original : ndarray) (s : locals) : locals :=
  let k' := (k s + 1)%Z in
  let approx_copy := approx s in
  let approx' := shultz_update original (approx s) in
  {| approx := approx';
     sigma := relative_change approx' approx_copy;
     k := k' |}.

(** The test after the loop: [sigma < tolerance]. *)
Definition shultz_finish (tolerance : float) (s : locals) (log : list entry)
  : outcome :=
  if sigma s <? tolerance then Returned (Some (approx s)) s log
  else Returned None s log.

Definition shultz_while (original : ndarray) (tolerance : float)
    (max_iterations : Z) : nat -> locals -> list entry -> outcome :=
  while_loop (fun s => Next (shultz_body original s))
             (shultz_finish tolerance) tolerance max_iterations.

Definition shultz_inv_run (original : ndarray) (tolerance : float)
    (max_iterations : Z) : outcome :=
  match LA_det original with
  | Some det =>
      if det =? 0 then Rejected
      else shultz_while original tolerance max_iterations
                        (Z.to_nat max_iterations) (initial_locals original) []
  | None => Rejected
  end.

Definition shultz_inv (original : ndarray) (tolerance : float)
    (max_iterations : Z) : option ndarray :=
  result_of (shultz_inv_run original tolerance max_iterations).

(** The loop-head states of a call. *)
Definition gen_reaches (original : ndarray) (tolerance : float)
    (max_iterations : Z) : locals -> Prop :=
  reaches (gen_body original) tolerance max_iterations
          (initial_locals original).

Definition shultz_reaches (original : ndarray) (tolerance : float)
    (max_iterations : Z) : locals -> Prop :=
  reaches (fun s => Next (shultz_body original s)) tolerance max_iterations
          (initial_locals original).

End Algorithms.

(** A sigma that is not a number, in the final variables or in a
    reported iteration: the trace of a quotient formed on a zero
    denominator. *)
Definition carries_nan (o : outcome) : bool :=
  match o with
  | Returned _ s log | Raised s log =>
      is_nan (sigma s) || existsb (fun e => is_nan (snd (fst e))) log
  | Rejected | OutOfFuel => false
  end.

(** ** Test data *)

Module Data.

(** The matrix of the example at the end of Ben_Israel_method.py. *)
Definition wide : ndarray := [[2; 1; 1; 3]; [1; 0; 0; -1]; [1; 1; 0; 4]].

(** Its transpose, of full column rank. *)
Definition tall : ndarray := [[2; 1; 1]; [1; 0; 1]; [1; 0; 0]; [3; -1; 4]].

(** The matrix of the example at the end of Shultz_method.py. *)
Definition square : ndarray := [[1; 2; 1]; [0; 1; 0]; [0; 2; 2]].

Definition singular : ndarray := [[1; 2]; [2; 4]].

Definition deficient : ndarray := [[1; 0]; [0; 0]].

Definition two : ndarray := [[2]].

(** Squaring its norm overflows, so [alpha] and the initial
    approximation are zero. *)
Definition huge : ndarray := [[1e200]].

(** The defaults of both functions. *)
Definition tolerance : float := 1e-7.
Definition max_iterations : Z := 1000.

End Data.

(** ** Reports, shapes and signs

    What the properties of whole calls are stated with. *)

(** The counters and the sigmas of a report, in its order. *)
Definition counters (log : list entry) : list Z :=
  map (fun e => fst (fst e)) log.

Definition sigmas (log : list entry) : list float :=
  map (fun e => snd (fst e)) log.

(** The numbers 1, ..., n. *)
Definition upto (n : nat) : list Z := map (fun i => Z.of_nat (S i)) (seq 0 n).

(** An array of [m] rows of [n] entries each. *)
Definition is_matrix (m n : nat) (a : ndarray) : Prop :=
  length a = m /\ Forall (fun r => length r = n) a.

(** Some entry of the array is NaN. *)
Definition has_nan (a : ndarray) : Prop :=
  Exists (Exists (fun x => is_nan x = true)) a.

(** The sign bit is clear, or the value is NaN. *)
Definition sf_plus (x : spec_float) : bool :=
  match x with
  | S754_nan => true
  | S754_zero s | S754_infinity s | S754_finite s _ _ => negb s
  end.

Definition plus_or_nan (x : float) : bool := sf_plus (Prim2SF x).

(** What the loop keeps true of its variables and its report, from a
    start [s0] with the counter at 0: the counter is the number of
    reported passes, it stays under the cap, the passes are numbered
    from 1 and the last line reported is the current state. *)
Definition report_ok (max_iterations : Z) (s0 s : locals) (log : list entry)
  : Prop :=
  k s = Z.of_nat (length log) /\
  (k s <= Z.max 0 max_iterations)%Z /\
  counters log = upto (length log) /\
  last log (entry_of s0) = entry_of s.

(** Every sigma of a state and of a report has its sign bit clear or is
    NaN. *)
Definition sigma_ok (s : locals) (log : list entry) : Prop :=
  plus_or_nan (sigma s) = true /\
  Forall (fun x => plus_or_nan x = true) (sigmas log).

Module Inputs.

Definition zeros : ndarray := [[0; 0]; [0; 0]].

Definition with_nan : ndarray := [[1; nan]; [0; 1]].

(** A singular matrix: the first and the last row add up to twice the
    middle one. *)
Definition singular3 : ndarray := [[1; 2; 3]; [4; 5; 6]; [7; 8; 9]].

End Inputs.

(** * Properties *)

(** ** Binary64 arithmetic *)

Module Float64Facts.

Lemma SFcompare_antisym x y :
  SFcompare y x = option_map CompOpp (SFcompare x y).
Proof.
  destruct x as [sx|sx| |sx mx ex], y as [sy|sy| |sy my ey]; simpl;
    try reflexivity;
    try (destruct sx; reflexivity); try (destruct sy; reflexivity);
    try (destruct sx, sy; reflexivity).
  destruct sx, sy; simpl; try reflexivity;
    rewrite (Z.compare_antisym ey ex);
    destruct (ey ?= ex)%Z eqn:E; simpl; try reflexivity;
    rewrite !Pos.compare_cont_spec, (Pos.compare_antisym my mx); simpl;
    destruct (my ?= mx)%positive; reflexivity.
Qed.

Lemma SFcompare_refl x : sf_nan x = false -> SFcompare x x = Some Eq.
Proof.
  destruct x as [s|s| |s m e]; simpl; try congruence;
    try (destruct s; reflexivity).
  intros _. rewrite Z.compare_refl, Pos.compare_cont_refl.
  destruct s; reflexivity.
Qed.

(** *** Comparisons *)

Lemma ltb_leb_false x y : (x <? y) = true -> (y <=? x) = false.
Proof.
  rewrite ltb_spec, leb_spec. unfold SFltb, SFleb.
  rewrite (SFcompare_antisym (Prim2SF x) (Prim2SF y)).
  destruct (SFcompare (Prim2SF x) (Prim2SF y)) as [[]|]; simpl; congruence.
Qed.

Lemma ltb_leb x y : (x <? y) = true -> (x <=? y) = true.
Proof.
  rewrite ltb_spec, leb_spec. unfold SFltb, SFleb.
  destruct (SFcompare (Prim2SF x) (Prim2SF y)) as [[]|]; simpl; congruence.
Qed.

Lemma ltb_asym x y : (x <? y) = true -> (y <? x) = false.
Proof.
  rewrite !ltb_spec. unfold SFltb.
  rewrite (SFcompare_antisym (Prim2SF x) (Prim2SF y)).
  destruct (SFcompare (Prim2SF x) (Prim2SF y)) as [[]|]; simpl; congruence.
Qed.

Lemma leb_ltb_false x y : (x <=? y) = true -> (y <? x) = false.
Proof.
  rewrite ltb_spec, leb_spec. unfold SFltb, SFleb.
  rewrite (SFcompare_antisym (Prim2SF x) (Prim2SF y)).
  destruct (SFcompare (Prim2SF x) (Prim2SF y)) as [[]|]; simpl; congruence.
Qed.

Lemma leb_antisym_eqb x y :
  (x <=? y) = true -> (y <=? x) = true -> (x =? y) = true.
Proof.
  rewrite !leb_spec, eqb_spec. unfold SFleb, SFeqb.
  rewrite (SFcompare_antisym (Prim2SF x) (Prim2SF y)).
  destruct (SFcompare (Prim2SF x) (Prim2SF y)) as [[]|]; simpl; congruence.
Qed.

(** *** The classes, on the specification *)

Lemma is_zero_spec x : is_zero x = sf_zero (Prim2SF x).
Proof.
  unfold is_zero. rewrite eqb_spec.
  change (Prim2SF zero) with (S754_zero false).
  destruct (Prim2SF x) as [s|s| |s m e]; try destruct s; reflexivity.
Qed.

Lemma is_nan_spec x : is_nan x = sf_nan (Prim2SF x).
Proof.
  unfold is_nan. rewrite eqb_spec. unfold SFeqb.
  destruct (sf_nan (Prim2SF x)) eqn:E.
  - destruct (Prim2SF x); try discriminate. reflexivity.
  - rewrite SFcompare_refl by assumption. reflexivity.
Qed.

Lemma leb_zero_spec x : (0 <=? x) = sf_nonneg (Prim2SF x).
Proof.
  rewrite leb_spec. change (Prim2SF 0) with (S754_zero false).
  destruct (Prim2SF x) as [s|s| |s m e]; try destruct s; reflexivity.
Qed.

Lemma zero_or_nan_spec x :
  zero_or_nan x = sf_zero (Prim2SF x) || sf_nan (Prim2SF x).
Proof. unfold zero_or_nan. now rewrite is_zero_spec, is_nan_spec. Qed.

Lemma nonneg_or_nan_spec x :
  nonneg_or_nan x = sf_nonneg (Prim2SF x) || sf_nan (Prim2SF x).
Proof. unfold nonneg_or_nan. now rewrite leb_zero_spec, is_nan_spec. Qed.

(** *** Comparing with NaN *)

Lemma leb_nan_r x y : is_nan y = true -> (x <=? y) = false.
Proof.
  rewrite is_nan_spec, leb_spec. unfold SFleb.
  destruct (Prim2SF y); try discriminate.
  destruct (Prim2SF x); reflexivity.
Qed.

Lemma leb_nan_l x y : is_nan x = true -> (x <=? y) = false.
Proof.
  rewrite is_nan_spec, leb_spec. unfold SFleb.
  destruct (Prim2SF x); try discriminate. reflexivity.
Qed.

Lemma ltb_nan_l x y : is_nan x = true -> (x <? y) = false.
Proof.
  rewrite is_nan_spec, ltb_spec. unfold SFltb.
  destruct (Prim2SF x); try discriminate. reflexivity.
Qed.

(** *** Rounding a positive mantissa never yields zero *)

Lemma digits2_pos_size m : digits2_pos m = Pos.size m.
Proof. induction m; simpl; congruence. Qed.

Lemma pow2_digits_le m : (2 ^ (Zpos (digits2_pos m) - 1) <= Zpos m)%Z.
Proof.
  rewrite digits2_pos_size.
  pose proof (Pos.size_le m) as H.
  assert (E : (Zpos (2 ^ Pos.size m) = 2 ^ Zpos (Pos.size m))%Z)
    by (rewrite Pos2Z.inj_pow; reflexivity).
  assert (H' : (2 ^ Zpos (Pos.size m) <= 2 * Zpos m)%Z).
  { rewrite <- E. change (2 * Zpos m)%Z with (Zpos (m~0)). exact H. }
  replace (Zpos (Pos.size m)) with (Z.succ (Zpos (Pos.size m) - 1))%Z in H'
    by lia.
  rewrite Z.pow_succ_r in H' by lia. lia.
Qed.

Lemma shr_1_m mrs :
  (0 <= shr_m mrs)%Z -> shr_m (shr_1 mrs) = Z.div2 (shr_m mrs).
Proof.
  destruct mrs as [m r s]; simpl. intros H.
  destruct m as [|[p|p|]|p]; try reflexivity; lia.
Qed.

Lemma iter_shr_1_m p : forall mrs, (0 <= shr_m mrs)%Z ->
  shr_m (iter_pos shr_1 p mrs) = Z.shiftr (shr_m mrs) (Zpos p).
Proof.
  induction p as [p IH|p IH|]; intros mrs H; simpl iter_pos.
  - assert (H1 : (0 <= shr_m (shr_1 mrs))%Z).
    { rewrite shr_1_m by assumption. rewrite Z.div2_nonneg. assumption. }
    assert (H2 : (0 <= shr_m (iter_pos shr_1 p (shr_1 mrs)))%Z).
    { rewrite IH by assumption. apply Z.shiftr_nonneg. assumption. }
    rewrite IH, IH by assumption. rewrite shr_1_m by assumption.
    rewrite Z.div2_spec, !Z.shiftr_shiftr by lia. f_equal. lia.
  - assert (H2 : (0 <= shr_m (iter_pos shr_1 p mrs))%Z).
    { rewrite IH by assumption. apply Z.shiftr_nonneg. assumption. }
    rewrite IH, IH by assumption.
    rewrite !Z.shiftr_shiftr by lia. f_equal. lia.
  - rewrite shr_1_m by assumption. apply Z.div2_spec.
Qed.

Lemma shr_record_of_loc_m m l : shr_m (shr_record_of_loc m l) = m.
Proof. destruct l as [|[]]; reflexivity. Qed.

(** Shifting into the format keeps the leading bit: the shift is
    shorter than the mantissa as soon as the exponent is at least
    [emin]. *)
Lemma shr_fexp_pos m e l :
  (emin <= e)%Z ->
  (0 < shr_m (fst (shr_fexp prec emax (Zpos m) e l)))%Z /\
  (emin <= snd (shr_fexp prec emax (Zpos m) e l))%Z.
Proof.
  intros He. unfold shr_fexp, shr.
  set (n := (fexp prec emax (Zdigits2 (Zpos m) + e) - e)%Z).
  assert (Hn : (n <= Z.max (Zpos (digits2_pos m) - prec) 0)%Z).
  { unfold n, fexp. simpl Zdigits2. unfold SpecFloat.emin in *. lia. }
  destruct n as [|p|p] eqn:En; simpl fst; simpl snd;
    rewrite ?shr_record_of_loc_m; try (split; [reflexivity | lia]).
  rewrite iter_shr_1_m by (rewrite shr_record_of_loc_m; lia).
  rewrite shr_record_of_loc_m. split; [|lia].
  rewrite Z.shiftr_div_pow2 by lia.
  apply Z.div_str_pos. split; [apply Z.pow_pos_nonneg; lia|].
  etransitivity; [|apply pow2_digits_le].
  apply Z.pow_le_mono_r; [lia|]. unfold prec in Hn. lia.
Qed.

Lemma round_nearest_even_pos m l :
  (0 < m)%Z -> (0 < round_nearest_even m l)%Z.
Proof.
  intros H. destruct l as [|[]]; simpl; try lia. destruct (Z.even m); lia.
Qed.

Lemma binary_round_aux_nonzero sx m e l :
  (emin <= e)%Z ->
  sf_zero (binary_round_aux prec emax sx (Zpos m) e l) = false.
Proof.
  intros He. unfold binary_round_aux.
  destruct (shr_fexp_pos m e l He) as [H1 H2].
  destruct (shr_fexp prec emax (Zpos m) e l) as [mrs' e'].
  simpl fst in *; simpl snd in *.
  pose proof (round_nearest_even_pos _ (loc_of_shr_record mrs') H1) as H3.
  destruct (round_nearest_even (shr_m mrs') (loc_of_shr_record mrs'))
    as [|m2|m2]; try lia.
  destruct (shr_fexp_pos m2 e' loc_Exact H2) as [H4 H5].
  destruct (shr_fexp prec emax (Zpos m2) e' loc_Exact) as [mrs'' e''].
  simpl fst in *; simpl snd in *.
  destruct (shr_m mrs'') as [|m3|m3]; try lia.
  destruct (Z.leb e'' (emax - prec)); reflexivity.
Qed.

Lemma binary_round_nonzero sx m e :
  (emin <= e)%Z -> sf_zero (binary_round prec emax sx m e) = false.
Proof.
  intros He. unfold binary_round.
  destruct (shl_align m e (fexp prec emax (Zpos (digits2_pos m) + e)))
    as [mz ez] eqn:E.
  apply binary_round_aux_nonzero.
  unfold shl_align in E.
  destruct (fexp prec emax (Zpos (digits2_pos m) + e) - e)%Z eqn:D;
    inversion E; subst; try lia.
  unfold fexp, SpecFloat.emin. lia.
Qed.

(** The sign a rounding is given is the sign of what it delivers. *)
Lemma binary_round_aux_sign m e l :
  let r := binary_round_aux prec emax false m e l in
  sf_nonneg r || sf_nan r = true.
Proof.
  unfold binary_round_aux.
  destruct (shr_fexp prec emax m e l) as [mrs' e'].
  destruct (shr_fexp prec emax _ e' loc_Exact) as [mrs'' e''].
  destruct (shr_m mrs''); try reflexivity.
  destruct (Z.leb e'' (emax - prec)); reflexivity.
Qed.

Lemma valid_binary_emin s m e :
  valid_binary (S754_finite s m e) = true -> (emin <= e)%Z.
Proof.
  simpl. unfold bounded, canonical_mantissa. intros H.
  apply andb_prop in H. destruct H as [H _]. apply Z.eqb_eq in H.
  unfold fexp, SpecFloat.emin in *. lia.
Qed.

(** No underflow in a sum: two values that are not negative add up
    to zero only when both are zero. *)
Lemma SF64add_zero_inv x y :
  valid_binary x = true -> valid_binary y = true ->
  sf_nonneg x = true -> sf_nonneg y = true ->
  sf_zero (SF64add x y) = true -> sf_zero x = true /\ sf_zero y = true.
Proof.
  intros Vx Vy.
  destruct x as [sx|sx| |sx mx ex], y as [sy|sy| |sy my ey];
    intros Hx Hy H; simpl in Hx, Hy, H;
    try discriminate; try (split; reflexivity);
    try (destruct sx, sy; discriminate).
  destruct sx, sy; try discriminate. exfalso.
  unfold SF64add, SFadd in H. simpl cond_Zopp in H.
  cbv beta iota zeta in H.
  unfold binary_normalize in H. cbn [Z.add] in H.
  rewrite binary_round_nonzero in H; [discriminate|].
  apply valid_binary_emin in Vx, Vy. lia.
Qed.

Lemma SF64add_nonneg x y :
  sf_nonneg x || sf_nan x = true -> sf_nonneg y || sf_nan y = true ->
  sf_nonneg (SF64add x y) || sf_nan (SF64add x y) = true.
Proof.
  destruct x as [sx|sx| |sx mx ex], y as [sy|sy| |sy my ey]; simpl;
    intros Hx Hy; try reflexivity; try assumption;
    try (destruct sx, sy; discriminate || reflexivity).
  destruct sx, sy; try discriminate.
  unfold SF64add, SFadd. simpl cond_Zopp. cbv beta iota zeta.
  unfold binary_normalize. cbn [Z.add]. unfold binary_round.
  destruct (shl_align _ _ _) as [mz ez].
  apply binary_round_aux_sign.
Qed.

(** *** Closure of the classes under the operations *)

Ltac to_spec :=
  rewrite ?zero_or_nan_spec, ?nonneg_or_nan_spec, ?is_zero_spec,
    ?is_nan_spec, ?mul_spec, ?add_spec, ?sub_spec, ?div_spec, ?abs_spec in *.

Lemma zero_or_nan_zero : zero_or_nan 0 = true.
Proof. reflexivity. Qed.

Lemma is_zero_zero_or_nan x : is_zero x = true -> zero_or_nan x = true.
Proof. unfold zero_or_nan. intros ->. reflexivity. Qed.

Lemma mul_zero_or_nan_l x y :
  zero_or_nan x = true -> zero_or_nan (x * y) = true.
Proof.
  to_spec. destruct (Prim2SF x), (Prim2SF y); simpl; congruence.
Qed.

Lemma mul_zero_or_nan_r x y :
  zero_or_nan y = true -> zero_or_nan (x * y) = true.
Proof.
  to_spec. destruct (Prim2SF x), (Prim2SF y); simpl; congruence.
Qed.

Lemma add_zero_or_nan x y :
  zero_or_nan x = true -> zero_or_nan y = true ->
  zero_or_nan (x + y) = true.
Proof.
  to_spec.
  destruct (Prim2SF x) as [[]| | |], (Prim2SF y) as [[]| | |]; simpl;
    congruence.
Qed.

Lemma sub_zero_or_nan x y :
  zero_or_nan x = true -> zero_or_nan y = true ->
  zero_or_nan (x - y) = true.
Proof.
  to_spec.
  destruct (Prim2SF x) as [[]| | |], (Prim2SF y) as [[]| | |]; simpl;
    congruence.
Qed.

Lemma abs_zero_or_nan x : zero_or_nan x = true -> zero_or_nan (abs x) = true.
Proof. to_spec. destruct (Prim2SF x); simpl; congruence. Qed.

Lemma maximum_zero_or_nan x y :
  zero_or_nan x = true -> zero_or_nan y = true ->
  zero_or_nan (maximum x y) = true.
Proof.
  intros Hx Hy. unfold maximum.
  destruct (is_nan x); [assumption|].
  destruct (is_nan y); [assumption|].
  destruct (x <? y); assumption.
Qed.

(** The quotient the sigma computation forms on a zero denominator. *)
Lemma div_zero_or_nan_by_zero x d :
  zero_or_nan x = true -> is_zero d = true -> is_nan (x / d) = true.
Proof.
  to_spec. destruct (Prim2SF x), (Prim2SF d); simpl; congruence.
Qed.

Lemma nonneg_or_nan_zero : nonneg_or_nan 0 = true.
Proof. reflexivity. Qed.

Lemma abs_nonneg_or_nan x : nonneg_or_nan (abs x) = true.
Proof. to_spec. destruct (Prim2SF x); reflexivity. Qed.

Lemma add_nonneg_or_nan x y :
  nonneg_or_nan x = true -> nonneg_or_nan y = true ->
  nonneg_or_nan (x + y) = true.
Proof. to_spec. apply SF64add_nonneg. Qed.

Lemma maximum_nonneg_or_nan x y :
  nonneg_or_nan x = true -> nonneg_or_nan y = true ->
  nonneg_or_nan (maximum x y) = true.
Proof.
  intros Hx Hy. unfold maximum.
  destruct (is_nan x); [assumption|].
  destruct (is_nan y); [assumption|].
  destruct (x <? y); assumption.
Qed.

Lemma abs_zero_inv x : is_zero (abs x) = true -> is_zero x = true.
Proof. to_spec. destruct (Prim2SF x); simpl; congruence. Qed.

Lemma add_zero_inv x y :
  nonneg_or_nan x = true -> nonneg_or_nan y = true ->
  is_zero (x + y) = true -> is_zero x = true /\ is_zero y = true.
Proof.
  intros Hx Hy H.
  pose proof (Prim2SF_valid x) as Vx. pose proof (Prim2SF_valid y) as Vy.
  to_spec.
  destruct (sf_nan (Prim2SF x)) eqn:Nx.
  { destruct (Prim2SF x); discriminate. }
  destruct (sf_nan (Prim2SF y)) eqn:Ny.
  { destruct (Prim2SF y); try discriminate.
    destruct (Prim2SF x); discriminate. }
  rewrite orb_false_r in Hx, Hy.
  now apply SF64add_zero_inv.
Qed.

Lemma maximum_zero_inv x y :
  nonneg_or_nan x = true -> nonneg_or_nan y = true ->
  is_zero (maximum x y) = true -> is_zero x = true /\ is_zero y = true.
Proof.
  unfold maximum. intros Hx Hy.
  destruct (is_nan x) eqn:Nx; [|destruct (is_nan y) eqn:Ny;
                                 [|destruct (x <? y) eqn:L]];
    intros H; revert Hx Hy H; try revert L; try revert Ny; revert Nx;
    rewrite ?ltb_spec; to_spec; unfold SFltb;
    destruct (Prim2SF x) as [sx|sx| |sx mx ex],
             (Prim2SF y) as [sy|sy| |sy my ey];
    simpl; try destruct sx; try destruct sy; simpl; try congruence; auto;
    destruct (ex ?= ey)%Z; try destruct (Pos.compare_cont Eq mx my);
    simpl; congruence.
Qed.

End Float64Facts.

(** ** Arrays whose entries are zero or NaN *)

Module ArrayFacts.

Import Float64Facts.

Create HintDb f64.

#[local] Hint Resolve zero_or_nan_zero nonneg_or_nan_zero
  add_zero_or_nan sub_zero_or_nan abs_zero_or_nan maximum_zero_or_nan
  mul_zero_or_nan_l mul_zero_or_nan_r is_zero_zero_or_nan
  abs_nonneg_or_nan add_nonneg_or_nan maximum_nonneg_or_nan : f64.

#[local] Abbreviation zn_row := (Forall (fun x => zero_or_nan x = true)).
#[local] Abbreviation nn_row := (Forall (fun x => nonneg_or_nan x = true)).
#[local] Abbreviation zero_row := (Forall (fun x => is_zero x = true)).

Lemma zero_row_zn r : zero_row r -> zn_row r.
Proof. apply Forall_impl. auto with f64. Qed.

Lemma every_entry_zero_zn a :
  every_entry is_zero a -> every_entry zero_or_nan a.
Proof. apply Forall_impl. exact zero_row_zn. Qed.

(** *** Sums and maxima *)

Lemma fold_add_zn l : forall acc,
  zero_or_nan acc = true -> zn_row l ->
  zero_or_nan (fold_left add l acc) = true.
Proof.
  induction l as [|x l IH]; intros acc Ha Hl; simpl; [assumption|].
  inversion Hl; subst. apply IH; auto with f64.
Qed.

Lemma fold_maximum_zn l : forall acc,
  zero_or_nan acc = true -> zn_row l ->
  zero_or_nan (fold_left maximum l acc) = true.
Proof.
  induction l as [|x l IH]; intros acc Ha Hl; simpl; [assumption|].
  inversion Hl; subst. apply IH; auto with f64.
Qed.

Lemma map_abs_zn r : zn_row r -> zn_row (map abs r).
Proof.
  induction 1; simpl; constructor; auto with f64.
Qed.

Lemma map_abs_nn r : nn_row (map abs r).
Proof. induction r; simpl; constructor; auto with f64. Qed.

Lemma fold_add_nn l : forall acc,
  nonneg_or_nan acc = true -> nn_row l ->
  nonneg_or_nan (fold_left add l acc) = true.
Proof.
  induction l as [|x l IH]; intros acc Ha Hl; simpl; [assumption|].
  inversion Hl; subst. apply IH; auto with f64.
Qed.

Lemma fold_add_zero_inv l : forall acc,
  nonneg_or_nan acc = true -> nn_row l ->
  is_zero (fold_left add l acc) = true ->
  is_zero acc = true /\ zero_row l.
Proof.
  induction l as [|x l IH]; intros acc Ha Hl H; simpl in H.
  - split; [assumption|constructor].
  - inversion Hl as [|? ? Hx Hl']; subst.
    destruct (IH (acc + x)) as [E1 E2]; auto with f64.
    destruct (add_zero_inv acc x) as [E3 E4]; auto.
Qed.

Lemma fold_maximum_zero_inv l : forall acc,
  nonneg_or_nan acc = true -> nn_row l ->
  is_zero (fold_left maximum l acc) = true ->
  is_zero acc = true /\ zero_row l.
Proof.
  induction l as [|x l IH]; intros acc Ha Hl H; simpl in H.
  - split; [assumption|constructor].
  - inversion Hl as [|? ? Hx Hl']; subst.
    destruct (IH (maximum acc x)) as [E1 E2]; auto with f64.
    destruct (maximum_zero_inv acc x) as [E3 E4]; auto.
Qed.

Lemma row_sum_nn r : nonneg_or_nan (add_reduce (map abs r)) = true.
Proof. apply fold_add_nn; [reflexivity|apply map_abs_nn]. Qed.

Lemma row_sum_zero_inv r :
  is_zero (add_reduce (map abs r)) = true -> zero_row r.
Proof.
  intros H. apply fold_add_zero_inv in H; [|reflexivity|apply map_abs_nn].
  destruct H as [_ H]. induction r as [|x r IH]; [constructor|].
  simpl in H. inversion H; subst. constructor; [|auto].
  now apply abs_zero_inv.
Qed.

(** A zero infinity norm: every entry is a zero. *)
Lemma norm_inf_zero_inv a :
  is_zero (norm_inf a) = true -> every_entry is_zero a.
Proof.
  unfold norm_inf, every_entry. destruct a as [|r a]; simpl.
  - discriminate.
  - intros H.
    apply fold_maximum_zero_inv in H; [|apply row_sum_nn|].
    + destruct H as [H1 H2]. constructor; [now apply row_sum_zero_inv|].
      induction a as [|r' a IH]; [constructor|].
      simpl in H2. inversion H2; subst.
      constructor; [now apply row_sum_zero_inv|auto].
    + clear H. induction a; simpl; constructor; auto using row_sum_nn.
Qed.

Lemma norm_inf_zn a :
  every_entry zero_or_nan a -> zero_or_nan (norm_inf a) = true.
Proof.
  unfold norm_inf, every_entry. intros H.
  assert (R : zn_row (map (fun r => add_reduce (map abs r)) a)).
  { induction H; simpl; constructor; [|assumption].
    apply fold_add_zn; [reflexivity|now apply map_abs_zn]. }
  destruct (map _ a) as [|x xs]; simpl; [reflexivity|].
  inversion R; subst. now apply fold_maximum_zn.
Qed.

(** *** Products and differences *)

Lemma inner_zn_l u : forall v,
  zn_row u -> zero_or_nan (inner u v) = true.
Proof.
  unfold inner. generalize 0 (zero_or_nan_zero).
  induction u as [|x u IH]; intros acc Ha v Hu; [assumption|].
  destruct v as [|y v]; [assumption|]. simpl.
  inversion Hu; subst. apply IH; auto with f64.
Qed.

Lemma inner_zn_r u : forall v,
  zn_row v -> zero_or_nan (inner u v) = true.
Proof.
  unfold inner. generalize 0 (zero_or_nan_zero).
  induction u as [|x u IH]; intros acc Ha v Hv; [assumption|].
  destruct v as [|y v]; [assumption|]. simpl.
  inversion Hv; subst. apply IH; auto with f64.
Qed.

Lemma nth_zn j : forall r, zn_row r -> zero_or_nan (nth j r 0) = true.
Proof.
  induction j as [|j IH]; intros r Hr; destruct r as [|x r]; simpl;
    try reflexivity; inversion Hr; subst; auto.
Qed.

Lemma transpose_zn a :
  every_entry zero_or_nan a -> every_entry zero_or_nan (transpose a).
Proof.
  unfold every_entry, transpose, column. intros H.
  apply Forall_map. apply Forall_forall. intros j _.
  apply Forall_map. revert H. apply Forall_impl. intros r. apply nth_zn.
Qed.

Lemma dot_zn_l a b :
  every_entry zero_or_nan a -> every_entry zero_or_nan (dot a b).
Proof.
  unfold every_entry, dot. intros H. apply Forall_map.
  revert H. apply Forall_impl. intros r Hr.
  apply Forall_map. apply Forall_forall. intros c _. now apply inner_zn_l.
Qed.

Lemma dot_zn_r a b :
  every_entry zero_or_nan b -> every_entry zero_or_nan (dot a b).
Proof.
  unfold dot. intros H. apply transpose_zn in H.
  unfold every_entry in *. apply Forall_map. apply Forall_forall.
  intros r _. apply Forall_map. revert H. apply Forall_impl.
  intros c Hc. now apply inner_zn_r.
Qed.

Lemma subtract_zn : forall a b,
  every_entry zero_or_nan a -> every_entry zero_or_nan b ->
  every_entry zero_or_nan (subtract a b).
Proof.
  unfold every_entry, subtract.
  induction a as [|r a IH]; intros b Ha Hb; [constructor|].
  destruct b as [|r' b]; [constructor|].
  inversion Ha; subst. inversion Hb; subst. simpl.
  constructor; [|now apply IH].
  clear - H1 H3. revert r' H3.
  induction H1 as [|x r Hx Hr IHr]; intros r' H3; [constructor|].
  destruct r' as [|y r']; [constructor|]. inversion H3; subst. simpl.
  constructor; auto with f64.
Qed.

(** The sigma of an iteration whose previous approximation has a zero
    infinity norm, when the next one has only zeros and NaNs. *)
Lemma relative_change_degenerate approx' approx_copy :
  every_entry zero_or_nan approx' ->
  is_zero (norm_inf approx_copy) = true ->
  is_nan (relative_change approx' approx_copy) = true.
Proof.
  intros H' H. unfold relative_change.
  apply div_zero_or_nan_by_zero; [|assumption].
  apply norm_inf_zn, subtract_zn; [assumption|].
  now apply every_entry_zero_zn, norm_inf_zero_inv.
Qed.

End ArrayFacts.

(** ** The loop *)

Section LoopFacts.

Variable body : locals -> pass.
Variable finish : locals -> list entry -> outcome.
Variables (tolerance : float) (max_iterations : Z).

(** Both bodies start with [k += 1]. *)
Hypothesis body_counts : forall s s', body s = Next s' -> k s' = (k s + 1)%Z.

#[local] Abbreviation run := (while_loop body finish tolerance max_iterations).
#[local] Abbreviation test := (loop_test tolerance max_iterations).

Lemma while_loop_skip fuel s log : test s = false -> run fuel s log = finish s log.
Proof. intros H. destruct fuel; simpl; rewrite H; reflexivity. Qed.

Lemma while_loop_step fuel s s' log :
  test s = true -> body s = Next s' ->
  run (S fuel) s log = run fuel s' (log ++ [entry_of s']).
Proof. intros H B. simpl. rewrite H, B. reflexivity. Qed.

Lemma while_loop_return fuel s s' log :
  test s = true -> body s = ReturnNone s' ->
  run (S fuel) s log = Returned None s' log.
Proof. intros H B. simpl. rewrite H, B. reflexivity. Qed.

Lemma while_loop_raise fuel s s' log :
  test s = true -> body s = Raises s' -> run (S fuel) s log = Raised s' log.
Proof. intros H B. simpl. rewrite H, B. reflexivity. Qed.

Lemma loop_test_below s : test s = true -> (k s < max_iterations)%Z.
Proof.
  unfold loop_test. intros H. apply andb_prop in H. destruct H as [_ H].
  now apply Z.ltb_lt.
Qed.

(** The fuel of [max_iterations - k] passes never runs out. *)
Lemma while_loop_total :
  (forall s log, finish s log <> OutOfFuel) ->
  forall fuel s log,
    (Z.to_nat (max_iterations - k s) <= fuel)%nat ->
    run fuel s log <> OutOfFuel.
Proof.
  intros F. induction fuel as [|fuel IH]; intros s log Hf; simpl.
  - destruct (test s) eqn:T; [|apply F].
    apply loop_test_below in T. lia.
  - destruct (test s) eqn:T; [|apply F].
    destruct (body s) as [s'|s'|s'] eqn:B; try discriminate.
    apply IH. apply body_counts in B. apply loop_test_below in T. lia.
Qed.

(** A call continues from any state its loop reaches. *)
Lemma reaches_run s0 s :
  reaches body tolerance max_iterations s0 s ->
  exists log,
    run (Z.to_nat (max_iterations - k s0)) s0 []
    = run (Z.to_nat (max_iterations - k s)) s log.
Proof.
  induction 1 as [|s s' R IH T B].
  - exists []. reflexivity.
  - destruct IH as [log IH]. exists (log ++ [entry_of s']).
    rewrite IH. pose proof (loop_test_below _ T) as L.
    pose proof (body_counts _ _ B) as K.
    replace (Z.to_nat (max_iterations - k s))
      with (S (Z.to_nat (max_iterations - k s'))) by lia.
    now apply while_loop_step.
Qed.

(** A pass that leaves a NaN in sigma is the last one: the loop test is
    false on it, and so is a final test that compares sigma. *)
Lemma while_loop_nan fuel s s' log :
  test s = true -> body s = Next s' -> is_nan (sigma s') = true ->
  (forall log', finish s' log' = Returned None s' log') ->
  run (S fuel) s log = Returned None s' (log ++ [entry_of s']).
Proof.
  intros T B N F. rewrite (while_loop_step _ _ _ _ T B).
  rewrite while_loop_skip; [apply F|].
  unfold loop_test. now rewrite Float64Facts.leb_nan_r.
Qed.

End LoopFacts.

(** ** The two functions *)

Section Claims.

Variable matrix_rank : ndarray -> option nat.
Variable lapack_det : ndarray -> float.

#[local] Abbreviation gen_body' := (gen_body matrix_rank).
#[local] Abbreviation gen_run := (gen_inv_run matrix_rank).
#[local] Abbreviation shultz_run := (shultz_inv_run lapack_det).

(** The three ways through the branches of the body of [gen_inv]: the
    rank call returns min(m, n), another number, or raises. *)
Lemma gen_update_full original x :
  matrix_rank original = Some (m_or_n original) ->
  gen_update matrix_rank original x
  = if truthy (row_or_column original)
    then Update (column_update original x)
    else Update (row_update original x).
Proof.
  intros R. unfold gen_update, rank_is_full, py_and. rewrite R, Nat.eqb_refl.
  destruct (truthy (row_or_column original)); reflexivity.
Qed.

Lemma gen_update_deficient original x r :
  matrix_rank original = Some r -> r <> m_or_n original ->
  gen_update matrix_rank original x = NoUpdate.
Proof.
  intros R N. unfold gen_update, rank_is_full, py_and. rewrite R.
  destruct (Nat.eqb_spec r (m_or_n original)); [contradiction|].
  destruct (truthy (row_or_column original)); reflexivity.
Qed.

Lemma gen_update_raises original x :
  matrix_rank original = None ->
  gen_update matrix_rank original x = RankError.
Proof.
  intros R. unfold gen_update, rank_is_full, py_and. rewrite R.
  destruct (truthy (row_or_column original)); reflexivity.
Qed.

Lemma gen_body_counts original s s' :
  gen_body' original s = Next s' -> k s' = (k s + 1)%Z.
Proof.
  unfold gen_body. destruct (gen_update _ _ _); intros H; inversion H.
  reflexivity.
Qed.

Lemma shultz_body_counts original s s' :
  Next (shultz_body original s) = Next s' -> k s' = (k s + 1)%Z.
Proof. intros H. inversion H. reflexivity. Qed.

Lemma gen_finish_returns tolerance s log : gen_finish tolerance s log <> OutOfFuel.
Proof. unfold gen_finish. destruct (_ <=? _); discriminate. Qed.

Lemma shultz_finish_returns tolerance s log :
  shultz_finish tolerance s log <> OutOfFuel.
Proof. unfold shultz_finish. destruct (_ <? _); discriminate. Qed.

(** Both calls end: the bound on the loop is never what ends a call. *)
Theorem gen_inv_run_total original tolerance max_iterations :
  gen_run original tolerance max_iterations <> OutOfFuel.
Proof.
  unfold gen_inv_run, gen_while.
  apply while_loop_total; [apply gen_body_counts|apply gen_finish_returns|].
  simpl. lia.
Qed.

Theorem shultz_inv_run_total original tolerance max_iterations :
  shultz_run original tolerance max_iterations <> OutOfFuel.
Proof.
  unfold shultz_inv_run, shultz_while.
  destruct (LA_det _ _) as [det|]; [|discriminate].
  destruct (det =? 0); [discriminate|].
  apply while_loop_total;
    [apply shultz_body_counts|apply shultz_finish_returns|].
  simpl. lia.
Qed.

(** The final tests on a sigma that has not dropped below the
    tolerance: [shultz_inv] gives [None] on [sigma >= tolerance],
    [gen_inv] on [sigma > tolerance] only. *)
Lemma shultz_finish_not_converged tolerance s log :
  (tolerance <=? sigma s) = true ->
  shultz_finish tolerance s log = Returned None s log.
Proof.
  intros H. unfold shultz_finish.
  now rewrite (Float64Facts.leb_ltb_false _ _ H).
Qed.

Lemma gen_finish_not_converged tolerance s log :
  (tolerance <? sigma s) = true ->
  gen_finish tolerance s log = Returned None s log.
Proof.
  intros H. unfold gen_finish.
  now rewrite (Float64Facts.ltb_leb_false _ _ H).
Qed.

Lemma gen_finish_boundary tolerance s log :
  (tolerance <=? sigma s) = true -> (sigma s <=? tolerance) = true ->
  (sigma s =? tolerance) = true /\
  gen_finish tolerance s log = Returned (Some (approx s)) s log.
Proof.
  intros H1 H2. split; [now apply Float64Facts.leb_antisym_eqb|].
  unfold gen_finish. now rewrite H2.
Qed.

(** *** The update rules *)

Lemma m_or_n_tall original m n :
  shape original = (m, n) -> (n < m)%nat ->
  m_or_n original = n /\ truthy (row_or_column original) = true.
Proof.
  intros S L. unfold row_or_column, m_or_n, tuple_min, tuple_index, truthy.
  rewrite S. simpl. rewrite Nat.min_r by lia.
  split; [reflexivity|].
  destruct (Nat.eqb_spec m n); [lia|reflexivity].
Qed.

Lemma m_or_n_wide original m n :
  shape original = (m, n) -> (m <= n)%nat ->
  m_or_n original = m /\ truthy (row_or_column original) = false.
Proof.
  intros S L. unfold row_or_column, m_or_n, tuple_min, tuple_index, truthy.
  rewrite S. simpl. rewrite Nat.min_l by lia.
  split; [reflexivity|]. now rewrite Nat.eqb_refl.
Qed.

(** C1. Each pass of the loop of [gen_inv] applies the update of its
    branch: for a matrix with more rows than columns and rank [n] the
    next approximation is (2I - X.A).X with I the identity of size [n];
    for one with fewer rows than columns and rank [m] it is
    X.(2I - A.X) with I of size [m].  The pass advances [k] by one and
    hands the new state back to the loop. *)
Theorem gen_inv_branch_update (original : ndarray) (s : locals) (m n : nat) :
  shape original = (m, n) ->
  ((n < m)%nat -> matrix_rank original = Some n ->
   exists s',
     gen_body' original s = Next s' /\
     approx s' = dot (subtract (scale 2 (eye n)) (dot (approx s) original))
                     (approx s) /\
     k s' = (k s + 1)%Z /\
     forall tolerance max_iterations fuel log,
       loop_test tolerance max_iterations s = true ->
       gen_while matrix_rank original tolerance max_iterations (S fuel) s log
       = gen_while matrix_rank original tolerance max_iterations fuel s'
                   (log ++ [entry_of s'])) /\
  ((m < n)%nat -> matrix_rank original = Some m ->
   exists s',
     gen_body' original s = Next s' /\
     approx s' = dot (approx s)
                     (subtract (scale 2 (eye m)) (dot original (approx s))) /\
     k s' = (k s + 1)%Z /\
     forall tolerance max_iterations fuel log,
       loop_test tolerance max_iterations s = true ->
       gen_while matrix_rank original tolerance max_iterations (S fuel) s log
       = gen_while matrix_rank original tolerance max_iterations fuel s'
                   (log ++ [entry_of s'])).
Proof.
  intros S. split; intros L R.
  - destruct (m_or_n_tall _ _ _ S L) as [E T].
    assert (B : gen_update matrix_rank original (approx s)
                = Update (column_update original (approx s))).
    { rewrite gen_update_full by (now rewrite E). now rewrite T. }
    eexists. unfold gen_body. rewrite B.
    split; [reflexivity|]. simpl.
    split; [unfold column_update; now rewrite E|].
    split; [reflexivity|].
    intros tolerance max_iterations fuel log T'. unfold gen_while.
    apply while_loop_step; [assumption|].
    unfold gen_body. now rewrite B.
  - destruct (m_or_n_wide _ _ _ S (Nat.lt_le_incl _ _ L)) as [E T].
    assert (B : gen_update matrix_rank original (approx s)
                = Update (row_update original (approx s))).
    { rewrite gen_update_full by (now rewrite E). now rewrite T. }
    eexists. unfold gen_body. rewrite B.
    split; [reflexivity|]. simpl.
    split; [unfold row_update; now rewrite E|].
    split; [reflexivity|].
    intros tolerance max_iterations fuel log T'. unfold gen_while.
    apply while_loop_step; [assumption|].
    unfold gen_body. now rewrite B.
Qed.

(** C7. The update of [shultz_inv] is the row-rank update of [gen_inv]
    on a square matrix: X.(2I - A.X) with the same identity.  With the
    rank test passed, a whole pass of [gen_inv] is a pass of
    [shultz_inv]. *)
Theorem shultz_update_is_row_update (original : ndarray) :
  fst (shape original) = snd (shape original) ->
  (forall x, shultz_update original x = row_update original x) /\
  (matrix_rank original = Some (fst (shape original)) ->
   forall s, gen_body' original s = Next (shultz_body original s)).
Proof.
  intros Q.
  destruct (m_or_n_wide original (fst (shape original)) (snd (shape original)))
    as [E T]; [now destruct (shape original)|lia|].
  split.
  - intros x. unfold shultz_update, row_update. now rewrite E.
  - intros R s. unfold gen_body, shultz_body.
    rewrite gen_update_full by (now rewrite E). rewrite T.
    unfold shultz_update, row_update. now rewrite E.
Qed.

(** *** The starting point *)


(** *** Rejected inputs of shultz_inv *)

(** C8. On a matrix that is not square [shultz_inv] returns [None] from
    the handler of the determinant's error: no pass of the loop runs. *)
Theorem shultz_inv_non_square (original : ndarray)
    (tolerance : float) (max_iterations : Z) :
  fst (shape original) <> snd (shape original) ->
  shultz_run original tolerance max_iterations = Rejected /\
  shultz_inv lapack_det original tolerance max_iterations = None /\
  report_of (shultz_run original tolerance max_iterations) = [].
Proof.
  intros Q.
  assert (E : shultz_run original tolerance max_iterations = Rejected).
  { unfold shultz_inv_run, LA_det.
    destruct (Nat.eqb_spec (fst (shape original)) (snd (shape original)));
      [contradiction|reflexivity]. }
  unfold shultz_inv. rewrite E. repeat split.
Qed.

(** The test behind the docstring's promise of [None] for a singular
    matrix: a square matrix is rejected before the loop is set up when
    the determinant computed for it compares equal to zero. *)
Lemma shultz_inv_singular (original : ndarray)
    (tolerance : float) (max_iterations : Z) :
  fst (shape original) = snd (shape original) ->
  (lapack_det original =? 0) = true ->
  shultz_run original tolerance max_iterations = Rejected /\
  shultz_inv lapack_det original tolerance max_iterations = None /\
  report_of (shultz_run original tolerance max_iterations) = [].
Proof.
  intros Q D.
  assert (E : shultz_run original tolerance max_iterations = Rejected).
  { unfold shultz_inv_run, LA_det. rewrite Q, Nat.eqb_refl, D. reflexivity. }
  unfold shultz_inv. rewrite E. repeat split.
Qed.

(** *** A tolerance above the initial sigma *)

(** C10. With a tolerance above 1 the loop test fails at once, since
    sigma starts at 1: [gen_inv] returns [alpha . A^T] for every matrix,
    whatever its rank, and [shultz_inv] does for every square matrix
    with a determinant other than zero.  No pass is reported. *)
Theorem tolerance_above_one (original : ndarray)
    (tolerance : float) (max_iterations : Z) :
  (1 <? tolerance) = true ->
  let x0 := scale (1.8 / (norm_fro original * norm_fro original))
                  (transpose original) in
  gen_run original tolerance max_iterations
  = Returned (Some x0) {| approx := x0; sigma := 1; k := 0 |} [] /\
  gen_inv matrix_rank original tolerance max_iterations = Some x0 /\
  (forall det, LA_det lapack_det original = Some det -> (det =? 0) = false ->
     shultz_run original tolerance max_iterations
     = Returned (Some x0) {| approx := x0; sigma := 1; k := 0 |} [] /\
     shultz_inv lapack_det original tolerance max_iterations = Some x0).
Proof.
  intros H. cbv zeta.
  assert (T : loop_test tolerance max_iterations (initial_locals original)
              = false).
  { unfold loop_test. simpl. now rewrite (Float64Facts.ltb_leb_false _ _ H). }
  assert (G : gen_run original tolerance max_iterations
              = Returned (Some (initial_approx original))
                         (initial_locals original) []).
  { unfold gen_inv_run, gen_while. rewrite while_loop_skip by assumption.
    unfold gen_finish. simpl. now rewrite (Float64Facts.ltb_leb _ _ H). }
  split; [exact G|]. split; [unfold gen_inv; now rewrite G|].
  intros det D Z.
  assert (E : shultz_run original tolerance max_iterations
              = Returned (Some (initial_approx original))
                         (initial_locals original) []).
  { unfold shultz_inv_run, shultz_while. rewrite D, Z.
    rewrite while_loop_skip by assumption.
    unfold shultz_finish. simpl. now rewrite H. }
  split; [exact E|]. unfold shultz_inv. now rewrite E.
Qed.

(** *** Rank-deficient input of gen_inv *)

(** C2, as amended.  For a matrix whose rank is below min(m, n) and a
    tolerance below 1, [gen_inv] returns [None] without applying an
    update and without reporting an iteration.  The rank is tested
    inside the loop: with [max_iterations] above zero the [return None]
    is that of the first pass, after [k] has moved to 1. *)
Theorem gen_inv_rank_deficient (original : ndarray)
    (tolerance : float) (max_iterations : Z) (r : nat) :
  matrix_rank original = Some r ->
  (r < m_or_n original)%nat ->
  (tolerance <? 1) = true ->
  gen_run original tolerance max_iterations
  = Returned None
             {| approx := initial_approx original; sigma := 1;
                k := if (0 <? max_iterations)%Z then 1 else 0 |} [] /\
  gen_inv matrix_rank original tolerance max_iterations = None.
Proof.
  intros R0 R H.
  assert (E : gen_run original tolerance max_iterations
              = Returned None
                  {| approx := initial_approx original; sigma := 1;
                     k := if (0 <? max_iterations)%Z then 1 else 0 |} []).
  { unfold gen_inv_run, gen_while.
    destruct (0 <? max_iterations)%Z eqn:M.
    - apply Z.ltb_lt in M.
      destruct (Z.to_nat max_iterations) as [|fuel] eqn:F; [lia|].
      apply while_loop_return.
      + unfold loop_test. simpl.
        rewrite (Float64Facts.ltb_leb _ _ H). now apply Z.ltb_lt.
      + unfold gen_body.
        rewrite (gen_update_deficient _ _ r) by (assumption || lia).
        reflexivity.
    - rewrite while_loop_skip.
      + unfold gen_finish. simpl.
        now rewrite (Float64Facts.ltb_leb_false _ _ H).
      + unfold loop_test. simpl. rewrite M. apply andb_false_r. }
  split; [exact E|]. unfold gen_inv. now rewrite E.
Qed.

(** *** A cap of zero iterations *)

(** C5, as amended.  With [max_iterations = 0] and a tolerance below 1
    both functions return [None] at once: the loop test fails on the
    counter, the final test on sigma = 1, and the initial approximation
    is left as it is. *)
Theorem zero_iterations_fail (original : ndarray) (tolerance : float) :
  (tolerance <? 1) = true ->
  gen_run original tolerance 0
  = Returned None (initial_locals original) [] /\
  gen_inv matrix_rank original tolerance 0 = None /\
  shultz_inv lapack_det original tolerance 0 = None /\
  (forall det, LA_det lapack_det original = Some det -> (det =? 0) = false ->
     shultz_run original tolerance 0
     = Returned None (initial_locals original) []).
Proof.
  intros H.
  assert (T : loop_test tolerance 0 (initial_locals original) = false).
  { unfold loop_test. simpl. apply andb_false_r. }
  assert (G : gen_run original tolerance 0
              = Returned None (initial_locals original) []).
  { unfold gen_inv_run, gen_while. rewrite while_loop_skip by assumption.
    unfold gen_finish. simpl.
    now rewrite (Float64Facts.ltb_leb_false _ _ H). }
  assert (S : forall det, LA_det lapack_det original = Some det ->
              (det =? 0) = false ->
              shultz_run original tolerance 0
              = Returned None (initial_locals original) []).
  { intros det D Z. unfold shultz_inv_run, shultz_while. rewrite D, Z.
    rewrite while_loop_skip by assumption.
    unfold shultz_finish. simpl.
    now rewrite (Float64Facts.ltb_asym _ _ H). }
  split; [exact G|]. split; [unfold gen_inv; now rewrite G|].
  split; [|exact S].
  unfold shultz_inv.
  destruct (LA_det lapack_det original) as [det|] eqn:D.
  - destruct (det =? 0) eqn:Z.
    + unfold shultz_inv_run. now rewrite D, Z.
    + now rewrite (S det).
  - unfold shultz_inv_run. now rewrite D.
Qed.

(** *** A zero denominator in sigma *)

Lemma gen_update_degenerate original x x' :
  is_zero (norm_inf x) = true ->
  gen_update matrix_rank original x = Update x' ->
  every_entry zero_or_nan x'.
Proof.
  intros Z. apply ArrayFacts.norm_inf_zero_inv in Z.
  apply ArrayFacts.every_entry_zero_zn in Z.
  unfold gen_update, py_and, rank_is_full.
  destruct (matrix_rank original) as [r|];
    destruct (truthy (row_or_column original)); simpl;
    try destruct (Nat.eqb r (m_or_n original)); try discriminate;
    intros E; inversion E.
  - now apply ArrayFacts.dot_zn_r.
  - now apply ArrayFacts.dot_zn_l.
Qed.

Lemma shultz_update_degenerate original x :
  is_zero (norm_inf x) = true ->
  every_entry zero_or_nan (shultz_update original x).
Proof.
  intros Z. apply ArrayFacts.norm_inf_zero_inv in Z.
  apply ArrayFacts.every_entry_zero_zn in Z.
  now apply ArrayFacts.dot_zn_l.
Qed.

(** C4, as amended.  Neither function tests the denominator of sigma.
    In a pass whose previous approximation has a zero infinity norm the
    quotient is formed all the same and is NaN; the pass is completed
    and reported with that sigma.  Every comparison with NaN is false,
    so the loop stops there and the final test gives [None].  ([gen_inv]
    may leave the pass earlier, by the [return None] of its rank test,
    or by the [LinAlgError] of the rank call when that raises.) *)
Theorem degenerate_norm_gives_nan (original : ndarray)
    (tolerance : float) (max_iterations : Z) (s : locals) :
  loop_test tolerance max_iterations s = true ->
  is_zero (norm_inf (approx s)) = true ->
  (gen_reaches matrix_rank original tolerance max_iterations s ->
   (matrix_rank original <> None ->
    exists s' log,
      gen_run original tolerance max_iterations = Returned None s' log /\
      gen_inv matrix_rank original tolerance max_iterations = None /\
      k s' = (k s + 1)%Z /\
      forall x', gen_update matrix_rank original (approx s) = Update x' ->
        approx s' = x' /\ is_nan (sigma s') = true /\
        exists log0, log = log0 ++ [entry_of s']) /\
   (matrix_rank original = None ->
    exists log,
      gen_run original tolerance max_iterations
      = Raised {| approx := approx s; sigma := sigma s; k := (k s + 1)%Z |}
               log)) /\
  (shultz_reaches original tolerance max_iterations s ->
   forall det, LA_det lapack_det original = Some det -> (det =? 0) = false ->
   exists s' log0,
     shultz_run original tolerance max_iterations
     = Returned None s' (log0 ++ [entry_of s']) /\
     shultz_inv lapack_det original tolerance max_iterations = None /\
     k s' = (k s + 1)%Z /\
     approx s' = shultz_update original (approx s) /\
     is_nan (sigma s') = true).
Proof.
  intros T Z.
  pose proof (loop_test_below _ _ _ T) as L.
  assert (F : exists fuel, Z.to_nat (max_iterations - k s) = S fuel).
  { exists (Nat.pred (Z.to_nat (max_iterations - k s))). lia. }
  destruct F as [fuel F].
  split.
  - intros R.
    apply (reaches_run _ (gen_finish tolerance)) in R;
      [|apply gen_body_counts].
    destruct R as [log R]. simpl in R. rewrite Z.sub_0_r, F in R.
    split; [intros RK|intros RK];
      [destruct (gen_update matrix_rank original (approx s))
         as [x'| |] eqn:U|].
    + set (s' := {| approx := x';
                    sigma := relative_change x' (approx s);
                    k := (k s + 1)%Z |}).
      assert (B : gen_body' original s = Next s')
        by (unfold gen_body; now rewrite U).
      assert (N : is_nan (sigma s') = true).
      { apply ArrayFacts.relative_change_degenerate; [|assumption].
        now apply (gen_update_degenerate original (approx s)). }
      assert (E : gen_run original tolerance max_iterations
                  = Returned None s' (log ++ [entry_of s'])).
      { unfold gen_inv_run, gen_while. rewrite R.
        apply while_loop_nan; try assumption.
        intros log'. unfold gen_finish.
        now rewrite (Float64Facts.leb_nan_l _ _ N). }
      exists s', (log ++ [entry_of s']).
      split; [exact E|]. split; [unfold gen_inv; now rewrite E|].
      split; [reflexivity|].
      intros x'' X. inversion X; subst x''.
      split; [reflexivity|]. split; [assumption|now exists log].
    + set (s' := {| approx := approx s; sigma := sigma s;
                    k := (k s + 1)%Z |}).
      assert (E : gen_run original tolerance max_iterations
                  = Returned None s' log).
      { unfold gen_inv_run, gen_while. rewrite R.
        apply while_loop_return; [assumption|].
        unfold gen_body. now rewrite U. }
      exists s', log.
      split; [exact E|]. split; [unfold gen_inv; now rewrite E|].
      split; [reflexivity|]. discriminate.
    + exfalso. destruct (matrix_rank original) as [r|] eqn:RR;
        [|now apply RK].
      unfold gen_update, py_and, rank_is_full in U. rewrite RR in U.
      destruct (truthy (row_or_column original)); simpl in U;
        destruct (Nat.eqb r (m_or_n original)); discriminate.
    + exists log. unfold gen_inv_run, gen_while. rewrite R.
      apply while_loop_raise; [assumption|].
      unfold gen_body. now rewrite gen_update_raises.
  - intros R det D Z0.
    apply (reaches_run _ (shultz_finish tolerance)) in R;
      [|apply shultz_body_counts].
    destruct R as [log R]. simpl in R. rewrite Z.sub_0_r, F in R.
    set (s' := shultz_body original s).
    assert (N : is_nan (sigma s') = true).
    { apply ArrayFacts.relative_change_degenerate; [|assumption].
      now apply shultz_update_degenerate. }
    assert (E : shultz_run original tolerance max_iterations
                = Returned None s' (log ++ [entry_of s'])).
    { unfold shultz_inv_run, shultz_while. rewrite D, Z0, R.
      apply while_loop_nan; try assumption; [reflexivity|].
      intros log'. unfold shultz_finish.
      now rewrite (Float64Facts.ltb_nan_l _ _ N). }
    exists s', log.
    split; [exact E|]. split; [unfold shultz_inv; now rewrite E|].
    split; [reflexivity|]. split; [reflexivity|assumption].
Qed.

End Claims.

(** ** The theorems on the test data *)

Section OnData.

#[local] Abbreviation rank := Reference.matrix_rank.
#[local] Abbreviation det := Reference.det.

#[local] Ltac compute_it := vm_compute; first [reflexivity | lia].

(** The two examples of the source files converge: [gen_inv] in 12
    passes, [shultz_inv] in 10. *)
Example gen_inv_example :
  exists x s log,
    gen_inv_run rank Data.wide Data.tolerance Data.max_iterations
    = Returned (Some x) s log /\ k s = 12%Z /\ length log = 12%nat.
Proof.
  destruct (gen_inv_run rank Data.wide Data.tolerance Data.max_iterations)
    as [[x|] s log| | |s log] eqn:E; try (vm_compute in E; discriminate).
  exists x, s, log. split; [reflexivity|].
  vm_compute in E. inversion E. split; reflexivity.
Qed.

Example shultz_inv_example :
  exists x s log,
    shultz_inv_run det Data.square Data.tolerance Data.max_iterations
    = Returned (Some x) s log /\ k s = 10%Z /\ length log = 10%nat.
Proof.
  destruct (shultz_inv_run det Data.square Data.tolerance Data.max_iterations)
    as [[x|] s log| | |s log] eqn:E; try (vm_compute in E; discriminate).
  exists x, s, log. split; [reflexivity|].
  vm_compute in E. inversion E. split; reflexivity.
Qed.

(** C1 on the 4 x 3 and the 3 x 4 example matrix, both of rank 3. *)
Lemma gen_inv_branch_update_witness :
  (exists s',
     gen_body rank Data.tall (initial_locals Data.tall) = Next s' /\
     approx s' = dot (subtract (scale 2 (eye 3))
                               (dot (initial_approx Data.tall) Data.tall))
                     (initial_approx Data.tall)) /\
  (exists s',
     gen_body rank Data.wide (initial_locals Data.wide) = Next s' /\
     approx s' = dot (initial_approx Data.wide)
                     (subtract (scale 2 (eye 3))
                               (dot Data.wide (initial_approx Data.wide)))).
Proof.
  split.
  - destruct (proj1 (gen_inv_branch_update rank Data.tall
                       (initial_locals Data.tall) 4 3 eq_refl))
      as [s' [B [A _]]]; [lia|reflexivity|].
    exists s'. split; assumption.
  - destruct (proj2 (gen_inv_branch_update rank Data.wide
                       (initial_locals Data.wide) 3 4 eq_refl))
      as [s' [B [A _]]]; [lia|reflexivity|].
    exists s'. split; assumption.
Defined.

(** C7 on the 3 x 3 example matrix. *)
Lemma shultz_update_is_row_update_witness :
  (forall x, shultz_update Data.square x = row_update Data.square x) /\
  gen_body rank Data.square (initial_locals Data.square)
  = Next (shultz_body Data.square (initial_locals Data.square)).
Proof.
  destruct (shultz_update_is_row_update rank Data.square eq_refl) as [U B].
  split; [exact U|]. apply B. reflexivity.
Defined.


(** C8 on the 3 x 4 example matrix. *)
Lemma shultz_inv_non_square_witness :
  fst (shape Data.wide) <> snd (shape Data.wide) /\
  shultz_inv_run det Data.wide Data.tolerance Data.max_iterations = Rejected.
Proof.
  assert (Q : fst (shape Data.wide) <> snd (shape Data.wide))
    by (simpl; lia).
  split; [exact Q|].
  exact (proj1 (shultz_inv_non_square det Data.wide
                  Data.tolerance Data.max_iterations Q)).
Defined.

(** A singular 2 x 2 matrix whose determinant is computed as zero. *)
Lemma shultz_inv_singular_witness :
  (det Data.singular =? 0) = true /\
  shultz_inv_run det Data.singular Data.tolerance Data.max_iterations
  = Rejected.
Proof.
  split; [reflexivity|].
  exact (proj1 (shultz_inv_singular det Data.singular
                  Data.tolerance Data.max_iterations eq_refl eq_refl)).
Defined.

(** C10 on a rank-deficient matrix and on the 3 x 3 example matrix. *)
Lemma tolerance_above_one_witness :
  rank Data.deficient = Some 1%nat /\
  (1 < m_or_n Data.deficient)%nat /\
  gen_inv rank Data.deficient 2 Data.max_iterations
  = Some (initial_approx Data.deficient) /\
  shultz_inv det Data.square 2 Data.max_iterations
  = Some (initial_approx Data.square).
Proof.
  split; [reflexivity|]. split; [vm_compute; lia|]. split.
  - exact (proj1 (proj2 (tolerance_above_one rank det Data.deficient 2
                           Data.max_iterations eq_refl))).
  - destruct (tolerance_above_one rank det Data.square 2
                Data.max_iterations eq_refl) as [_ [_ S]].
    apply (S 2); reflexivity.
Defined.

(** C2, counterexample: a 2 x 2 matrix of rank 1 and a tolerance of 2.
    The loop, and the rank test in it, is skipped, and the final test
    [1 <= 2] returns the initial approximation. *)
Lemma rank_deficient_accepted :
  rank Data.deficient = Some 1%nat /\
  (1 < m_or_n Data.deficient)%nat /\
  gen_inv_run rank Data.deficient 2 Data.max_iterations
  = Returned (Some [[1.8; 0]; [0; 0]])
             {| approx := [[1.8; 0]; [0; 0]]; sigma := 1; k := 0 |} [] /\
  gen_inv rank Data.deficient 2 Data.max_iterations <> None.
Proof.
  split; [reflexivity|]. split; [vm_compute; lia|].
  split; [vm_compute; reflexivity|].
  vm_compute. discriminate.
Qed.

(** C2 as amended, on the same matrix with the default arguments. *)
Lemma gen_inv_rank_deficient_witness :
  rank Data.deficient = Some 1%nat /\
  (1 < m_or_n Data.deficient)%nat /\
  gen_inv_run rank Data.deficient Data.tolerance Data.max_iterations
  = Returned None
             {| approx := initial_approx Data.deficient; sigma := 1; k := 1 |}
             [].
Proof.
  assert (R : (1 < m_or_n Data.deficient)%nat) by (vm_compute; lia).
  split; [reflexivity|]. split; [exact R|].
  exact (proj1 (gen_inv_rank_deficient rank Data.deficient
                  Data.tolerance Data.max_iterations 1 eq_refl R eq_refl)).
Defined.

(** C5, counterexample: with [max_iterations = 0] and a tolerance of 2
    both functions return the initial approximation of [[2]]. *)
Lemma zero_iterations_accepted :
  gen_inv rank Data.two 2 0 = Some [[0.9]] /\
  shultz_inv det Data.two 2 0 = Some [[0.9]].
Proof. split; vm_compute; reflexivity. Qed.

(** C5 as amended, on the 3 x 3 example matrix. *)
Lemma zero_iterations_fail_witness :
  gen_inv rank Data.square Data.tolerance 0 = None /\
  shultz_inv_run det Data.square Data.tolerance 0
  = Returned None (initial_locals Data.square) [].
Proof.
  destruct (zero_iterations_fail rank det Data.square Data.tolerance eq_refl)
    as [_ [G [_ S]]].
  split; [exact G|]. apply (S 2); reflexivity.
Defined.

(** C3, failing input: [[2]] with [tolerance = 0.8] and
    [max_iterations = 1].  The one pass leaves sigma at 0.8, the loop
    stops on the counter with [sigma >= tolerance] still true, and
    [gen_inv] returns the approximation where [shultz_inv], on the same
    state, returns [None].  The same happens with no pass at all for
    [tolerance = 1] and [max_iterations = 0]. *)
Theorem gen_inv_accepts_sigma_at_tolerance :
  let s1 := {| approx := [[0.17999999999999997]]; sigma := 0.8; k := 1 |} in
  gen_inv_run rank Data.two 0.8 1
  = Returned (Some [[0.17999999999999997]]) s1 [(1%Z, 0.8, approx s1)] /\
  shultz_inv_run det Data.two 0.8 1
  = Returned None s1 [(1%Z, 0.8, approx s1)] /\
  loop_test 0.8 1 s1 = false /\ (0.8 <=? sigma s1) = true /\
  gen_inv rank Data.two 1 0 = Some [[0.9]] /\
  shultz_inv det Data.two 1 0 = None.
Proof. cbv zeta. repeat split; vm_compute; reflexivity. Qed.

(** C4, counterexample: squaring the norm of [[1e200]] overflows, so
    alpha and the initial approximation are zero.  The first pass
    divides 0 by 0 with no test in between: sigma is NaN in the final
    state and in the reported iteration. *)
Lemma zero_norm_divides :
  is_zero (norm_inf (initial_approx Data.huge)) = true /\
  gen_inv_run rank Data.huge Data.tolerance Data.max_iterations
  = Returned None {| approx := [[0]]; sigma := nan; k := 1 |}
             [(1%Z, nan, [[0]])] /\
  shultz_inv_run det Data.huge Data.tolerance Data.max_iterations
  = Returned None {| approx := [[0]]; sigma := nan; k := 1 |}
             [(1%Z, nan, [[0]])] /\
  carries_nan (gen_inv_run rank Data.huge Data.tolerance Data.max_iterations)
  = true /\
  carries_nan (shultz_inv_run det Data.huge Data.tolerance Data.max_iterations)
  = true.
Proof. repeat split; vm_compute; reflexivity. Qed.

(** C4 as amended, on the same matrix. *)
Lemma degenerate_norm_gives_nan_witness :
  is_zero (norm_inf (approx (initial_locals Data.huge))) = true /\
  gen_inv rank Data.huge Data.tolerance Data.max_iterations = None /\
  shultz_inv det Data.huge Data.tolerance Data.max_iterations = None.
Proof.
  split; [reflexivity|].
  destruct (degenerate_norm_gives_nan rank det Data.huge Data.tolerance
              Data.max_iterations (initial_locals Data.huge)
              eq_refl eq_refl) as [G S].
  split.
  - destruct G as [G _]; [apply reaches_start|].
    destruct G as [s' [log [_ [E _]]]]; [discriminate|exact E].
  - destruct (S (reaches_start _ _ _ _) 1e200 eq_refl eq_refl)
      as [s' [log [_ [E _]]]].
    exact E.
Defined.

(** C9, failing input: the matrix [[1, 2, 3], [4, 5, 6], [7, 8, 9]].
    It is singular: its first row, less twice the second, plus the
    third is zero.  The code tests [det == 0] on the determinant
    computed in floating point, and elimination with partial pivoting
    leaves a last pivot of rounding size: the determinant comes out as
    6.66e-16.  For every computed determinant other than an exact zero
    the call goes on to the loop, which meets the default tolerance in
    its 13th pass, and an array is returned where the docstring
    promises [None]. *)
Theorem shultz_inv_accepts_singular :
  let a := Inputs.singular3 in
  fst (shape a) = snd (shape a) /\
  dot [[1; -2; 1]] a = [[0; 0; 0]] /\
  Reference.det_lu a = 6.6613381477509392e-16 /\
  (Reference.det_lu a =? 0) = false /\
  (exists x s log,
     shultz_inv_run Reference.det_lu a Data.tolerance Data.max_iterations
     = Returned (Some x) s log /\
     k s = 13%Z /\ length log = 13%nat /\
     (sigma s <? Data.tolerance) = true /\
     shultz_inv Reference.det_lu a Data.tolerance Data.max_iterations
     = Some x /\
     forall lapack_det, (lapack_det a =? 0) = false ->
       shultz_inv_run lapack_det a Data.tolerance Data.max_iterations
       = Returned (Some x) s log).
Proof.
  cbv zeta.
  split; [reflexivity|]. split; [vm_compute; reflexivity|].
  split; [vm_compute; reflexivity|]. split; [vm_compute; reflexivity|].
  eassert (W : shultz_while Inputs.singular3 Data.tolerance
                 Data.max_iterations (Z.to_nat Data.max_iterations)
                 (initial_locals Inputs.singular3) []
               = Returned (Some _) _ _) by (vm_compute; reflexivity).
  assert (G : forall lapack_det,
            (lapack_det Inputs.singular3 =? 0) = false ->
            shultz_inv_run lapack_det Inputs.singular3 Data.tolerance
              Data.max_iterations
            = shultz_while Inputs.singular3 Data.tolerance
                Data.max_iterations (Z.to_nat Data.max_iterations)
                (initial_locals Inputs.singular3) []).
  { intros lapack_det D. unfold shultz_inv_run, LA_det.
    change (Nat.eqb (fst (shape Inputs.singular3))
                    (snd (shape Inputs.singular3))) with true.
    cbv iota. now rewrite D. }
  do 3 eexists.
  split; [rewrite G by (vm_compute; reflexivity); exact W|].
  split; [reflexivity|]. split; [reflexivity|].
  split; [vm_compute; reflexivity|].
  split; [unfold shultz_inv;
          rewrite G by (vm_compute; reflexivity); now rewrite W|].
  intros lapack_det D. rewrite (G _ D). exact W.
Qed.

End OnData.

(** * Whole calls *)

(** ** Induction on the loop *)

Section LoopInduction.

Variable body : locals -> pass.
Variable finish : locals -> list entry -> outcome.
Variables (tolerance : float) (max_iterations : Z).

Hypothesis finish_keeps : forall s log r s' log',
  finish s log = Returned r s' log' -> s' = s /\ log' = log.
Hypothesis finish_returns : forall s log s' log',
  finish s log <> Raised s' log'.

Variable P : locals -> list entry -> Prop.

Hypothesis P_step : forall s s' log,
  P s log -> loop_test tolerance max_iterations s = true ->
  body s = Next s' -> P s' (log ++ [entry_of s']).

Lemma while_loop_ind : forall fuel s log r s' log',
  P s log ->
  while_loop body finish tolerance max_iterations fuel s log
  = Returned r s' log' ->
  (P s' log' /\ loop_test tolerance max_iterations s' = false /\
   finish s' log' = Returned r s' log') \/
  (exists s1, P s1 log' /\ loop_test tolerance max_iterations s1 = true /\
              body s1 = ReturnNone s' /\ r = None).
Proof.
  induction fuel as [|fuel IH]; intros s log r s' log' H E; simpl in E;
    destruct (loop_test tolerance max_iterations s) eqn:T;
    try discriminate.
  - destruct (finish_keeps _ _ _ _ _ E) as [-> ->]. left. auto.
  - destruct (body s) as [s1|s1|s1] eqn:B; [| |discriminate].
    + apply (IH _ _ _ _ _ (P_step _ _ _ H T B) E).
    + inversion E; subst. right. exists s. auto.
  - destruct (finish_keeps _ _ _ _ _ E) as [-> ->]. left. auto.
Qed.

(** A call that ends by an exception does so in a pass of the loop. *)
Lemma while_loop_raised : forall fuel s log s' log',
  P s log ->
  while_loop body finish tolerance max_iterations fuel s log
  = Raised s' log' ->
  exists s1, P s1 log' /\ loop_test tolerance max_iterations s1 = true /\
             body s1 = Raises s'.
Proof.
  induction fuel as [|fuel IH]; intros s log s' log' H E; simpl in E;
    destruct (loop_test tolerance max_iterations s) eqn:T;
    try discriminate; try (now apply finish_returns in E).
  destruct (body s) as [s1|s1|s1] eqn:B; [|discriminate|].
  - apply (IH _ _ _ _ (P_step _ _ _ H T B) E).
  - inversion E; subst. exists s. auto.
Qed.

End LoopInduction.

Section LoopCompare.

Variable body : locals -> pass.
Variable finish : locals -> list entry -> outcome.
Variable tolerance : float.

Hypothesis body_counts : forall s s', body s = Next s' -> k s' = (k s + 1)%Z.
Hypothesis finish_keeps : forall s log r s' log',
  finish s log = Returned r s' log' -> s' = s /\ log' = log.

(** A call whose sigma has dropped below the tolerance ends the same
    way under every larger cap. *)
Lemma while_loop_cap_mono N N' : (N <= N')%Z ->
  forall fuel fuel' s log r s' log',
    (Z.to_nat (N' - k s) <= fuel')%nat ->
    while_loop body finish tolerance N fuel s log = Returned r s' log' ->
    (tolerance <=? sigma s') = false ->
    while_loop body finish tolerance N' fuel' s log = Returned r s' log'.
Proof.
  intros LE. induction fuel as [|fuel IH]; intros fuel' s log r s' log' F E S;
    simpl in E; destruct (loop_test tolerance N s) eqn:T; try discriminate.
  - destruct (finish_keeps _ _ _ _ _ E) as [-> ->].
    rewrite while_loop_skip; [assumption|].
    unfold loop_test. now rewrite S.
  - pose proof (loop_test_below _ _ _ T) as L.
    assert (T' : loop_test tolerance N' s = true).
    { unfold loop_test in *. apply andb_prop in T. destruct T as [T1 _].
      rewrite T1. simpl. apply Z.ltb_lt. lia. }
    destruct fuel' as [|fuel']; [lia|]. simpl. rewrite T'.
    destruct (body s) as [s1|s1|s1] eqn:B; [|assumption|discriminate].
    apply (IH fuel' _ _ _ _ _); try assumption.
    apply body_counts in B. lia.
  - destruct (finish_keeps _ _ _ _ _ E) as [-> ->].
    rewrite while_loop_skip; [assumption|].
    unfold loop_test. now rewrite S.
Qed.

End LoopCompare.

(** Two loops with one body: a value the first returns from its final
    test is returned by the second as soon as its final test accepts
    what the first one accepts. *)
Lemma while_loop_finish_weaken body finish1 finish2 tolerance N x :
  (forall s log s' log',
     finish1 s log = Returned (Some x) s' log' ->
     finish2 s log = Returned (Some x) s' log') ->
  forall fuel s log s' log',
    while_loop body finish1 tolerance N fuel s log = Returned (Some x) s' log' ->
    while_loop body finish2 tolerance N fuel s log = Returned (Some x) s' log'.
Proof.
  intros W. induction fuel as [|fuel IH]; intros s log s' log' E; simpl in *;
    destruct (loop_test tolerance N s); try discriminate; auto.
  destruct (body s) as [s1|s1|s1]; [auto|discriminate|discriminate].
Qed.

Lemma while_loop_ext body1 body2 finish tolerance N :
  (forall s, body1 s = body2 s) ->
  forall fuel s log,
    while_loop body1 finish tolerance N fuel s log
    = while_loop body2 finish tolerance N fuel s log.
Proof.
  intros X. induction fuel as [|fuel IH]; intros s log; simpl;
    destruct (loop_test tolerance N s); try reflexivity.
  rewrite X. destruct (body2 s); [apply IH|reflexivity|reflexivity].
Qed.

(** ** The report of a call *)

Lemma upto_S n : upto (S n) = upto n ++ [Z.of_nat (S n)].
Proof. unfold upto. rewrite seq_S, map_app. reflexivity. Qed.

Lemma counters_app log e : counters (log ++ [e]) = counters log ++ [fst (fst e)].
Proof. unfold counters. rewrite map_app. reflexivity. Qed.

Lemma entry_of_inj s s' : entry_of s = entry_of s' -> s = s'.
Proof.
  destruct s, s'. unfold entry_of. simpl. intros H. inversion H. reflexivity.
Qed.

Lemma report_ok_start max_iterations s0 : k s0 = 0%Z -> report_ok max_iterations s0 s0 [].
Proof. intros K. unfold report_ok. simpl. rewrite K. repeat split. lia. Qed.

Lemma report_ok_step tolerance max_iterations s0 s s' log :
  report_ok max_iterations s0 s log ->
  loop_test tolerance max_iterations s = true ->
  k s' = (k s + 1)%Z ->
  report_ok max_iterations s0 s' (log ++ [entry_of s']).
Proof.
  intros [K [B [C L]]] T K'. apply loop_test_below in T.
  unfold report_ok. rewrite length_app, last_last, counters_app. simpl.
  rewrite Nat.add_1_r, upto_S, C.
  repeat split; try lia. f_equal. f_equal. lia.
Qed.

Section Reports.

Variable matrix_rank : ndarray -> option nat.
Variable lapack_det : ndarray -> float.

Lemma gen_finish_keeps tolerance s log r s' log' :
  gen_finish tolerance s log = Returned r s' log' -> s' = s /\ log' = log.
Proof.
  unfold gen_finish. destruct (_ <=? _); intros H; inversion H; auto.
Qed.

Lemma shultz_finish_keeps tolerance s log r s' log' :
  shultz_finish tolerance s log = Returned r s' log' -> s' = s /\ log' = log.
Proof.
  unfold shultz_finish. destruct (_ <? _); intros H; inversion H; auto.
Qed.

Lemma gen_finish_no_raise tolerance s log s' log' :
  gen_finish tolerance s log <> Raised s' log'.
Proof. unfold gen_finish. destruct (_ <=? _); discriminate. Qed.

Lemma shultz_finish_no_raise tolerance s log s' log' :
  shultz_finish tolerance s log <> Raised s' log'.
Proof. unfold shultz_finish. destruct (_ <? _); discriminate. Qed.

(** The branch a pass of [gen_inv] takes tells what the rank call gave. *)
Lemma gen_update_rank original x :
  match gen_update matrix_rank original x with
  | Update _ => matrix_rank original = Some (m_or_n original)
  | NoUpdate => exists r, matrix_rank original = Some r /\
                          r <> m_or_n original
  | RankError => matrix_rank original = None
  end.
Proof.
  unfold gen_update, py_and, rank_is_full.
  destruct (matrix_rank original) as [r|]; [|
    destruct (truthy (row_or_column original)); reflexivity].
  destruct (Nat.eqb_spec r (m_or_n original)) as [E|E];
    destruct (truthy (row_or_column original)); simpl;
    try (now rewrite E); now exists r.
Qed.

(** The state and the report at the end of a call of [shultz_inv] that
    reached its loop. *)
Lemma shultz_run_inv original tolerance max_iterations r s log :
  shultz_inv_run lapack_det original tolerance max_iterations
  = Returned r s log ->
  report_ok max_iterations (initial_locals original) s log /\
  loop_test tolerance max_iterations s = false /\
  r = if sigma s <? tolerance then Some (approx s) else None.
Proof.
  unfold shultz_inv_run, shultz_while.
  destruct (LA_det _ _) as [d|]; [|discriminate].
  destruct (d =? 0); [discriminate|]. intros E.
  apply (while_loop_ind _ _ _ _ (shultz_finish_keeps tolerance)
           (report_ok max_iterations (initial_locals original))) in E.
  - destruct E as [[I [T F]]|[s1 [_ [_ [B _]]]]]; [|discriminate].
    split; [assumption|]. split; [assumption|].
    unfold shultz_finish in F. destruct (_ <? _); inversion F; reflexivity.
  - intros s0 s' log0 I T B. inversion B; subst.
    eapply report_ok_step; eauto.
  - now apply report_ok_start.
Qed.

(** The same for [gen_inv], which can also leave by the [return None]
    of its rank test: then it does so in the first pass. *)
Lemma gen_run_inv original tolerance max_iterations r s log :
  gen_inv_run matrix_rank original tolerance max_iterations
  = Returned r s log ->
  (report_ok max_iterations (initial_locals original) s log /\
   loop_test tolerance max_iterations s = false /\
   r = if sigma s <=? tolerance then Some (approx s) else None) \/
  (r = None /\ log = [] /\
   s = {| approx := initial_approx original; sigma := 1; k := 1 |} /\
   loop_test tolerance max_iterations (initial_locals original) = true /\
   exists r', matrix_rank original = Some r' /\ r' <> m_or_n original).
Proof.
  unfold gen_inv_run, gen_while. intros E.
  apply (while_loop_ind _ _ _ _ (gen_finish_keeps tolerance)
           (fun s log =>
              report_ok max_iterations (initial_locals original) s log /\
              (log <> [] ->
               matrix_rank original = Some (m_or_n original)))) in E.
  - destruct E as [[[I _] [T F]]|[s1 [[I R] [T [B N]]]]].
    + left. split; [assumption|]. split; [assumption|].
      unfold gen_finish in F. destruct (_ <=? _); inversion F; reflexivity.
    + right. unfold gen_body in B.
      pose proof (gen_update_rank original (approx s1)) as Q.
      destruct (gen_update matrix_rank original (approx s1)) eqn:U;
        try discriminate.
      destruct Q as [r' [Q1 Q2]].
      assert (L : log = []).
      { destruct log; [reflexivity|]. exfalso.
        rewrite R in Q1 by discriminate. inversion Q1. now apply Q2. }
      subst log. destruct I as [_ [_ [_ I]]]. simpl in I.
      apply entry_of_inj in I. subst s1. inversion B.
      repeat split; auto. now exists r'.
  - intros s0 s' log0 [I R] T B. split.
    + eapply report_ok_step; eauto. eapply gen_body_counts; eauto.
    + intros _. unfold gen_body in B.
      pose proof (gen_update_rank original (approx s0)) as Q.
      destruct (gen_update _ _ _); [assumption|discriminate|discriminate].
  - split; [now apply report_ok_start|]. congruence.
Qed.

(** [shultz_inv] has no call that can raise in its loop. *)
Lemma shultz_run_returns original tolerance max_iterations s log :
  shultz_inv_run lapack_det original tolerance max_iterations
  <> Raised s log.
Proof.
  unfold shultz_inv_run, shultz_while.
  destruct (LA_det _ _) as [d|]; [|discriminate].
  destruct (d =? 0); [discriminate|]. intros E.
  apply (while_loop_raised _ _ _ _ (shultz_finish_no_raise tolerance)
           (fun _ _ => True)) in E; [|auto|exact I].
  destruct E as [s1 [_ [_ B]]]. discriminate.
Qed.

(** [gen_inv] ends by the exception of the rank call in the first pass
    or never. *)
Lemma gen_run_raised original tolerance max_iterations s log :
  gen_inv_run matrix_rank original tolerance max_iterations = Raised s log ->
  log = [] /\
  s = {| approx := initial_approx original; sigma := 1; k := 1 |} /\
  loop_test tolerance max_iterations (initial_locals original) = true /\
  matrix_rank original = None.
Proof.
  unfold gen_inv_run, gen_while. intros E.
  apply (while_loop_raised _ _ _ _ (gen_finish_no_raise tolerance)
           (fun s log =>
              report_ok max_iterations (initial_locals original) s log /\
              (log <> [] ->
               matrix_rank original = Some (m_or_n original)))) in E.
  - destruct E as [s1 [[I R] [T B]]]. unfold gen_body in B.
    pose proof (gen_update_rank original (approx s1)) as Q.
    destruct (gen_update matrix_rank original (approx s1)) eqn:U;
      try discriminate.
    assert (L : log = []).
    { destruct log; [reflexivity|]. exfalso.
      rewrite R in Q by discriminate. discriminate. }
    subst log. destruct I as [_ [_ [_ I]]]. simpl in I.
    apply entry_of_inj in I. subst s1. inversion B.
    repeat split; auto.
  - intros s0 s' log0 [I R] T B. split.
    + eapply report_ok_step; eauto. eapply gen_body_counts; eauto.
    + intros _. unfold gen_body in B.
      pose proof (gen_update_rank original (approx s0)) as Q.
      destruct (gen_update _ _ _); [assumption|discriminate|discriminate].
  - split; [now apply report_ok_start|]. congruence.
Qed.

End Reports.

(** ** Shapes *)

Module ShapeFacts.

Lemma shape_cols m n a :
  is_matrix m n a -> (1 <= m)%nat -> snd (shape a) = n.
Proof.
  intros [L R] M. destruct a as [|r a]; simpl in *; [lia|].
  now inversion R.
Qed.

Lemma transpose_is_matrix m n a :
  is_matrix m n a -> (1 <= m)%nat -> is_matrix n m (transpose a).
Proof.
  intros H M. pose proof (shape_cols _ _ _ H M) as C.
  destruct H as [L R]. unfold is_matrix, transpose. rewrite C.
  rewrite length_map, length_seq. split; [reflexivity|].
  apply Forall_map, Forall_forall. intros j _.
  unfold column. now rewrite length_map.
Qed.

Lemma dot_is_matrix m p q n a b :
  is_matrix m q a -> is_matrix p n b -> (1 <= p)%nat ->
  is_matrix m n (dot a b).
Proof.
  intros [La _] Hb P. pose proof (transpose_is_matrix _ _ _ Hb P) as [Lt _].
  unfold is_matrix, dot. rewrite length_map. split; [assumption|].
  apply Forall_map, Forall_forall. intros r _. now rewrite length_map.
Qed.

Lemma subtract_is_matrix m n : forall a b,
  is_matrix m n a -> is_matrix m n b -> is_matrix m n (subtract a b).
Proof.
  unfold is_matrix, subtract. intros a b [La Ra] [Lb Rb].
  rewrite length_map, length_combine. split; [lia|].
  apply Forall_map, Forall_forall. intros [r r'] I. simpl.
  rewrite length_map, length_combine.
  pose proof (in_combine_l _ _ _ _ I) as I1.
  pose proof (in_combine_r _ _ _ _ I) as I2.
  rewrite Forall_forall in Ra, Rb.
  rewrite (Ra _ I1), (Rb _ I2). lia.
Qed.

Lemma scale_is_matrix c m n a : is_matrix m n a -> is_matrix m n (scale c a).
Proof.
  unfold is_matrix, scale. intros [L R]. rewrite length_map.
  split; [assumption|]. apply Forall_map. revert R. apply Forall_impl.
  intros r. now rewrite length_map.
Qed.

Lemma eye_is_matrix n : is_matrix n n (eye n).
Proof.
  unfold is_matrix, eye. rewrite length_map, length_seq.
  split; [reflexivity|]. apply Forall_map, Forall_forall. intros i _.
  now rewrite length_map, length_seq.
Qed.

Lemma initial_approx_is_matrix m n original :
  is_matrix m n original -> (1 <= m)%nat ->
  is_matrix n m (initial_approx original).
Proof.
  intros H M. unfold initial_approx.
  now apply scale_is_matrix, transpose_is_matrix.
Qed.

Lemma row_update_is_matrix m n original x :
  is_matrix m n original -> (1 <= m <= n)%nat ->
  is_matrix n m x -> is_matrix n m (row_update original x).
Proof.
  intros H M X.
  assert (S : shape original = (m, n)).
  { unfold shape. destruct H as [L R]. rewrite L.
    f_equal. destruct original; simpl in *; [lia|now inversion R]. }
  destruct (m_or_n_wide original m n S) as [E _]; [lia|].
  unfold row_update. rewrite E.
  apply (dot_is_matrix n m m m); [assumption| |lia].
  apply subtract_is_matrix.
  - apply scale_is_matrix, eye_is_matrix.
  - apply (dot_is_matrix m n n m); [assumption|assumption|lia].
Qed.

Lemma column_update_is_matrix m n original x :
  is_matrix m n original -> (1 <= n < m)%nat ->
  is_matrix n m x -> is_matrix n m (column_update original x).
Proof.
  intros H M X.
  assert (S : shape original = (m, n)).
  { unfold shape. destruct H as [L R]. rewrite L.
    f_equal. destruct original; simpl in *; [lia|now inversion R]. }
  destruct (m_or_n_tall original m n S) as [E _]; [lia|].
  unfold column_update. rewrite E.
  apply (dot_is_matrix n n n m); [|assumption|lia].
  apply subtract_is_matrix.
  - apply scale_is_matrix, eye_is_matrix.
  - apply (dot_is_matrix n m m n); [assumption|assumption|lia].
Qed.

Lemma gen_update_is_matrix matrix_rank m n original x x' :
  is_matrix m n original -> (1 <= m)%nat -> (1 <= n)%nat ->
  is_matrix n m x ->
  gen_update matrix_rank original x = Update x' -> is_matrix n m x'.
Proof.
  intros H M N X.
  assert (S : shape original = (m, n)).
  { unfold shape. destruct H as [L R]. rewrite L.
    f_equal. destruct original; simpl in *; [lia|now inversion R]. }
  unfold gen_update, py_and, rank_is_full.
  destruct (Nat.le_gt_cases m n) as [C|C].
  - destruct (m_or_n_wide original m n S C) as [_ T]. rewrite T. simpl.
    destruct (matrix_rank original) as [r|]; [|discriminate].
    destruct (Nat.eqb _ _); [|discriminate].
    intros E. inversion E. apply row_update_is_matrix; auto.
  - destruct (m_or_n_tall original m n S C) as [_ T]. rewrite T. simpl.
    destruct (matrix_rank original) as [r|]; [|discriminate].
    destruct (Nat.eqb _ _); [|discriminate].
    intros E. inversion E. apply column_update_is_matrix; auto.
Qed.

Lemma shultz_update_is_matrix n original x :
  is_matrix n n original -> (1 <= n)%nat ->
  is_matrix n n x -> is_matrix n n (shultz_update original x).
Proof.
  intros H N X.
  assert (S : fst (shape original) = n) by (unfold shape; apply H).
  unfold shultz_update. rewrite S.
  apply (dot_is_matrix n n n n); [assumption| |lia].
  apply subtract_is_matrix.
  - apply scale_is_matrix, eye_is_matrix.
  - apply (dot_is_matrix n n n n); [assumption|assumption|lia].
Qed.

End ShapeFacts.

(** ** The sign of sigma *)

Module SignFacts.

Import Float64Facts.

Lemma binary_round_aux_plus m e l :
  sf_plus (binary_round_aux prec emax false m e l) = true.
Proof.
  unfold binary_round_aux.
  destruct (shr_fexp prec emax m e l) as [mrs' e'].
  destruct (shr_fexp prec emax _ e' loc_Exact) as [mrs'' e''].
  destruct (shr_m mrs''); try reflexivity.
  destruct (Z.leb e'' (emax - prec)); reflexivity.
Qed.

Lemma SF64add_plus x y :
  sf_plus x = true -> sf_plus y = true -> sf_plus (SF64add x y) = true.
Proof.
  destruct x as [sx|sx| |sx mx ex], y as [sy|sy| |sy my ey]; simpl;
    intros Hx Hy; try reflexivity; try assumption;
    try (destruct sx, sy; discriminate || reflexivity).
  destruct sx, sy; try discriminate.
  unfold SF64add, SFadd. simpl cond_Zopp. cbv beta iota zeta.
  unfold binary_normalize. cbn [Z.add]. unfold binary_round.
  destruct (shl_align _ _ _) as [mz ez].
  apply binary_round_aux_plus.
Qed.

Lemma SF64div_plus x y :
  sf_plus x = true -> sf_plus y = true -> sf_plus (SF64div x y) = true.
Proof.
  destruct x as [sx|sx| |sx mx ex], y as [sy|sy| |sy my ey]; simpl;
    intros Hx Hy; try reflexivity;
    try (destruct sx, sy; discriminate || reflexivity).
  destruct sx, sy; try discriminate.
  unfold SF64div, SFdiv.
  destruct (SFdiv_core_binary _ _ _ _ _ _) as [[mz ez] lz].
  apply binary_round_aux_plus.
Qed.

Lemma plus_or_nan_zero : plus_or_nan 0 = true.
Proof. reflexivity. Qed.

Lemma plus_or_nan_one : plus_or_nan 1 = true.
Proof. reflexivity. Qed.

Lemma plus_or_nan_nan : plus_or_nan nan = true.
Proof. reflexivity. Qed.

Lemma plus_or_nan_abs x : plus_or_nan (abs x) = true.
Proof.
  unfold plus_or_nan. rewrite abs_spec. destruct (Prim2SF x); reflexivity.
Qed.

Lemma plus_or_nan_add x y :
  plus_or_nan x = true -> plus_or_nan y = true -> plus_or_nan (x + y) = true.
Proof. unfold plus_or_nan. rewrite add_spec. apply SF64add_plus. Qed.

Lemma plus_or_nan_div x y :
  plus_or_nan x = true -> plus_or_nan y = true -> plus_or_nan (x / y) = true.
Proof. unfold plus_or_nan. rewrite div_spec. apply SF64div_plus. Qed.

Lemma plus_or_nan_maximum x y :
  plus_or_nan x = true -> plus_or_nan y = true ->
  plus_or_nan (maximum x y) = true.
Proof.
  intros Hx Hy. unfold maximum.
  destruct (is_nan x); [assumption|].
  destruct (is_nan y); [assumption|].
  destruct (x <? y); assumption.
Qed.

Lemma plus_or_nan_nonneg x :
  plus_or_nan x = true -> nonneg_or_nan x = true.
Proof.
  unfold plus_or_nan. rewrite nonneg_or_nan_spec.
  destruct (Prim2SF x) as [s|s| |s m e]; try destruct s; simpl; congruence.
Qed.

Lemma plus_or_nan_fold_add l : forall acc,
  plus_or_nan acc = true -> Forall (fun x => plus_or_nan x = true) l ->
  plus_or_nan (fold_left add l acc) = true.
Proof.
  induction l as [|x l IH]; intros acc Ha Hl; simpl; [assumption|].
  inversion Hl; subst. apply IH; [now apply plus_or_nan_add|assumption].
Qed.

Lemma plus_or_nan_fold_maximum l : forall acc,
  plus_or_nan acc = true -> Forall (fun x => plus_or_nan x = true) l ->
  plus_or_nan (fold_left maximum l acc) = true.
Proof.
  induction l as [|x l IH]; intros acc Ha Hl; simpl; [assumption|].
  inversion Hl; subst. apply IH; [now apply plus_or_nan_maximum|assumption].
Qed.

(** The infinity norm has its sign bit clear, or is NaN. *)
Lemma plus_or_nan_norm_inf a : plus_or_nan (norm_inf a) = true.
Proof.
  unfold norm_inf.
  assert (R : Forall (fun x => plus_or_nan x = true)
                     (map (fun r => add_reduce (map abs r)) a)).
  { apply Forall_map, Forall_forall. intros r _.
    apply plus_or_nan_fold_add; [reflexivity|].
    apply Forall_map, Forall_forall. intros x _. apply plus_or_nan_abs. }
  destruct (map _ a) as [|x xs]; simpl; [reflexivity|].
  inversion R; subst. now apply plus_or_nan_fold_maximum.
Qed.

Lemma plus_or_nan_relative_change x' x :
  plus_or_nan (relative_change x' x) = true.
Proof.
  unfold relative_change. apply plus_or_nan_div; apply plus_or_nan_norm_inf.
Qed.

End SignFacts.

(** ** Arrays of NaN *)

Module NanFacts.

Import Float64Facts.

Ltac spec :=
  rewrite ?is_zero_spec, ?is_nan_spec, ?mul_spec, ?add_spec, ?div_spec,
    ?sqrt_spec in *.

Lemma add_nan_l x y : is_nan x = true -> is_nan (x + y) = true.
Proof. spec. destruct (Prim2SF x); try discriminate. reflexivity. Qed.

Lemma add_nan_r x y : is_nan y = true -> is_nan (x + y) = true.
Proof.
  spec. destruct (Prim2SF y); try discriminate.
  destruct (Prim2SF x); reflexivity.
Qed.

Lemma mul_nan_l x y : is_nan x = true -> is_nan (x * y) = true.
Proof. spec. destruct (Prim2SF x); try discriminate. reflexivity. Qed.

Lemma mul_nan_r x y : is_nan y = true -> is_nan (x * y) = true.
Proof.
  spec. destruct (Prim2SF y); try discriminate.
  destruct (Prim2SF x); reflexivity.
Qed.

Lemma div_nan_r x y : is_nan y = true -> is_nan (x / y) = true.
Proof.
  spec. destruct (Prim2SF y); try discriminate.
  destruct (Prim2SF x); reflexivity.
Qed.

Lemma sqrt_nan x : is_nan x = true -> is_nan (sqrt x) = true.
Proof. spec. destruct (Prim2SF x); try discriminate. reflexivity. Qed.

Lemma add_zero x y :
  is_zero x = true -> is_zero y = true -> is_zero (x + y) = true.
Proof.
  spec. destruct (Prim2SF x) as [[]| | |], (Prim2SF y) as [[]| | |];
    simpl; congruence.
Qed.

Lemma mul_zero x y :
  is_zero x = true -> is_zero y = true -> is_zero (x * y) = true.
Proof.
  spec. destruct (Prim2SF x), (Prim2SF y); simpl; congruence.
Qed.

Lemma sqrt_zero x : is_zero x = true -> is_zero (sqrt x) = true.
Proof. spec. destruct (Prim2SF x); simpl; congruence. Qed.

(** [1.8 / 0] is an infinity, and an infinity times zero is NaN. *)
Lemma alpha_of_zero_norm z x :
  is_zero z = true -> is_zero x = true -> is_nan (1.8 / z * x) = true.
Proof.
  spec. change (Prim2SF 1.8) with (S754_finite false 8106479329266893 (-52)).
  destruct (Prim2SF z); try discriminate.
  destruct (Prim2SF x); try discriminate. reflexivity.
Qed.

(** *** The inner product *)

Lemma inner_fold_nan l : forall acc,
  is_nan acc = true ->
  is_nan (fold_left (fun acc xy => acc + fst xy * snd xy) l acc) = true.
Proof.
  induction l as [|xy l IH]; intros acc H; simpl; [assumption|].
  apply IH. now apply add_nan_l.
Qed.

Lemma inner_self_nan u :
  Exists (fun x => is_nan x = true) u -> is_nan (inner u u) = true.
Proof.
  unfold inner. generalize 0.
  induction u as [|x u IH]; intros acc H; inversion H; subst; simpl.
  - apply inner_fold_nan. apply add_nan_r. now apply mul_nan_l.
  - now apply IH.
Qed.

Lemma inner_self_zero u :
  Forall (fun x => is_zero x = true) u -> is_zero (inner u u) = true.
Proof.
  unfold inner. generalize 0 (eq_refl : is_zero 0 = true).
  induction u as [|x u IH]; intros acc Ha H; simpl; [assumption|].
  inversion H; subst. apply IH; [|assumption].
  apply add_zero; [assumption|now apply mul_zero].
Qed.

Lemma concat_has_nan a :
  has_nan a -> Exists (fun x => is_nan x = true) (concat a).
Proof.
  unfold has_nan. induction 1 as [r a H|r a H IH]; simpl; apply Exists_app.
  - now left.
  - now right.
Qed.

Lemma concat_zero a :
  every_entry is_zero a -> Forall (fun x => is_zero x = true) (concat a).
Proof.
  unfold every_entry. induction 1; simpl; [constructor|].
  apply Forall_app. split; assumption.
Qed.

(** *** The initial approximation *)

Lemma nth_zero j : forall r,
  Forall (fun x => is_zero x = true) r -> is_zero (nth j r 0) = true.
Proof.
  induction j as [|j IH]; intros r Hr; destruct r as [|x r]; simpl;
    try reflexivity; inversion Hr; subst; auto.
Qed.

Lemma transpose_zero a :
  every_entry is_zero a -> every_entry is_zero (transpose a).
Proof.
  unfold every_entry, transpose, column. intros H.
  apply Forall_map. apply Forall_forall. intros j _.
  apply Forall_map. revert H. apply Forall_impl. intros r. apply nth_zero.
Qed.

(** A matrix of zeros, or one with a NaN in it, gives an initial
    approximation that is NaN throughout. *)
Lemma initial_approx_nan original :
  every_entry is_zero original \/ has_nan original ->
  every_entry is_nan (initial_approx original).
Proof.
  intros H. unfold initial_approx, initial_alpha, scale, every_entry.
  apply Forall_map. destruct H as [Z|N].
  - pose proof (transpose_zero _ Z) as T.
    assert (F : is_zero (norm_fro original * norm_fro original) = true).
    { assert (is_zero (norm_fro original) = true)
        by (unfold norm_fro; now apply sqrt_zero, inner_self_zero, concat_zero).
      now apply mul_zero. }
    revert T. apply Forall_impl. intros r R.
    apply Forall_map. revert R. apply Forall_impl. intros x X.
    now apply alpha_of_zero_norm.
  - assert (F : is_nan (1.8 / (norm_fro original * norm_fro original)) = true).
    { apply div_nan_r, mul_nan_l. unfold norm_fro.
      now apply sqrt_nan, inner_self_nan, concat_has_nan. }
    apply Forall_forall. intros r _. apply Forall_map, Forall_forall.
    intros x _. now apply mul_nan_l.
Qed.

(** *** The infinity norm *)

Lemma fold_add_nan l : forall acc,
  is_nan acc = true -> is_nan (fold_left add l acc) = true.
Proof.
  induction l as [|x l IH]; intros acc H; simpl; [assumption|].
  apply IH. now apply add_nan_l.
Qed.

Lemma maximum_nan_l x y : is_nan x = true -> is_nan (maximum x y) = true.
Proof. intros H. unfold maximum. now rewrite H. Qed.

Lemma fold_maximum_nan l : forall acc,
  is_nan acc = true -> is_nan (fold_left maximum l acc) = true.
Proof.
  induction l as [|x l IH]; intros acc H; simpl; [assumption|].
  apply IH. now apply maximum_nan_l.
Qed.

Lemma abs_nan x : is_nan x = true -> is_nan (abs x) = true.
Proof.
  rewrite !is_nan_spec, abs_spec. destruct (Prim2SF x); try discriminate.
  reflexivity.
Qed.

Lemma norm_inf_nan m n a :
  is_matrix m n a -> (1 <= m)%nat -> (1 <= n)%nat ->
  every_entry is_nan a -> is_nan (norm_inf a) = true.
Proof.
  intros [L R] M N H. unfold norm_inf.
  destruct a as [|r a]; simpl in *; [lia|].
  apply fold_maximum_nan.
  inversion R as [|? ? Lr _]; subst. inversion H as [|? ? Hr _]; subst.
  destruct r as [|x r]; simpl in *; [lia|].
  inversion Hr as [|? ? Hx _]; subst.
  unfold add_reduce. simpl. apply fold_add_nan.
  now apply add_nan_r, abs_nan.
Qed.

Lemma relative_change_nan x' x :
  is_nan (norm_inf x) = true -> is_nan (relative_change x' x) = true.
Proof. intros H. unfold relative_change. now apply div_nan_r. Qed.

End NanFacts.

(** ** Comparing a sigma with a tolerance that is not positive *)



(** ** Properties of whole calls *)


Lemma while_loop_accepts body finish tolerance N :
  (forall s log, finish s log <> Rejected) ->
  forall fuel s log,
    while_loop body finish tolerance N fuel s log <> Rejected.
Proof.
  intros F. induction fuel as [|fuel IH]; intros s log; simpl;
    destruct (loop_test tolerance N s); auto; try discriminate.
  destruct (body s); auto; discriminate.
Qed.

Section Calls.

Variable matrix_rank : ndarray -> option nat.
Variable lapack_det : ndarray -> float.

(** [gen_inv] has no [return] ahead of its loop. *)
Lemma gen_run_accepts original tolerance max_iterations :
  gen_inv_run matrix_rank original tolerance max_iterations <> Rejected.
Proof.
  unfold gen_inv_run, gen_while. apply while_loop_accepts.
  intros s log. unfold gen_finish. destruct (_ <=? _); discriminate.
Qed.

Lemma sigma_ok_step s' log :
  Forall (fun x => plus_or_nan x = true) (sigmas log) ->
  plus_or_nan (sigma s') = true ->
  Forall (fun x => plus_or_nan x = true) (sigmas (log ++ [entry_of s'])).
Proof.
  intros L S. unfold sigmas. rewrite map_app. apply Forall_app.
  split; [assumption|]. constructor; [assumption|constructor].
Qed.

Lemma gen_run_sigma original tolerance max_iterations r s log :
  gen_inv_run matrix_rank original tolerance max_iterations
  = Returned r s log ->
  sigma_ok s log.
Proof.
  unfold gen_inv_run, gen_while. intros E.
  apply (while_loop_ind _ _ _ _ (gen_finish_keeps tolerance) sigma_ok) in E.
  - destruct E as [[I _]|[s1 [[I1 I2] [_ [B _]]]]]; [assumption|].
    unfold gen_body in B.
    destruct (gen_update _ _ _) as [x'| |]; try discriminate.
    inversion B. split; assumption.
  - intros s0 s' log0 [I1 I2] T B. unfold gen_body in B.
    destruct (gen_update _ _ _) as [x'| |]; try discriminate. inversion B.
    assert (S : plus_or_nan (relative_change x' (approx s0)) = true)
      by apply SignFacts.plus_or_nan_relative_change.
    split; [exact S|]. apply sigma_ok_step; assumption.
  - split; [reflexivity|constructor].
Qed.

Lemma shultz_run_sigma original tolerance max_iterations r s log :
  shultz_inv_run lapack_det original tolerance max_iterations
  = Returned r s log ->
  sigma_ok s log.
Proof.
  unfold shultz_inv_run, shultz_while.
  destruct (LA_det _ _) as [d|]; [|discriminate].
  destruct (d =? 0); [discriminate|]. intros E.
  apply (while_loop_ind _ _ _ _ (shultz_finish_keeps tolerance) sigma_ok)
    in E.
  - destruct E as [[I _]|[s1 [_ [_ [B _]]]]]; [assumption|discriminate].
  - intros s0 s' log0 [I1 I2] T B. inversion B.
    assert (S : plus_or_nan (sigma (shultz_body original s0)) = true)
      by apply SignFacts.plus_or_nan_relative_change.
    split; [exact S|]. apply sigma_ok_step; assumption.
  - split; [reflexivity|constructor].
Qed.

(** X1. A call of [shultz_inv] that gets past its determinant test runs
    at most [max_iterations] passes (none for a cap below 1).  At the
    [return] the counter [k] is the number of passes reported, the
    reported passes carry the numbers 1, 2, ..., [k], and the state
    returned from is the one of the last pass reported (the initial one
    when there is none). *)
Theorem shultz_inv_iterations (original : ndarray) (tolerance : float)
    (max_iterations : Z) (r : option ndarray) (s : locals)
    (log : list entry) :
  shultz_inv_run lapack_det original tolerance max_iterations
  = Returned r s log ->
  (Z.of_nat (length log) <= Z.max 0 max_iterations)%Z /\
  k s = Z.of_nat (length log) /\
  counters log = upto (length log) /\
  last log (entry_of (initial_locals original)) = entry_of s.
Proof.
  intros E. apply shultz_run_inv in E. destruct E as [[K [B [C L]]] _].
  repeat split; try assumption. lia.
Qed.

(** X2. A call of [gen_inv] ends in one of three ways.  It returns
    after the loop, having reported at most [max_iterations] passes
    numbered 1, 2, ..., with [k] the number of passes reported and the
    state of the last of them.  Or it returns by the [return None] of
    the rank test: in the first pass only, with nothing reported,
    [k = 1], the initial approximation untouched, and only when
    [LA.matrix_rank] gave a rank other than min(m, n).  Or it is left
    by the [LinAlgError] of [LA.matrix_rank], which nothing catches:
    again in the first pass only, with nothing reported and [k = 1]. *)
Theorem gen_inv_iterations (original : ndarray) (tolerance : float)
    (max_iterations : Z) :
  let first := {| approx := initial_approx original; sigma := 1; k := 1 |} in
  (exists r s log,
     gen_inv_run matrix_rank original tolerance max_iterations
     = Returned r s log /\
     (Z.of_nat (length log) <= Z.max 0 max_iterations)%Z /\
     counters log = upto (length log) /\
     ((k s = Z.of_nat (length log) /\
       last log (entry_of (initial_locals original)) = entry_of s) \/
      (r = None /\ log = [] /\ s = first /\
       loop_test tolerance max_iterations (initial_locals original) = true /\
       exists r', matrix_rank original = Some r' /\
                  r' <> m_or_n original))) \/
  (gen_inv_run matrix_rank original tolerance max_iterations
   = Raised first [] /\
   loop_test tolerance max_iterations (initial_locals original) = true /\
   matrix_rank original = None).
Proof.
  cbv zeta.
  destruct (gen_inv_run matrix_rank original tolerance max_iterations)
    as [r s log| | |s log] eqn:E.
  - left. exists r, s, log. split; [reflexivity|].
    apply gen_run_inv in E.
    destruct E as [[[K [B [C L]]] _]|[R [L [S [T Q]]]]].
    + repeat split; try assumption; [lia|]. left. split; assumption.
    + subst log. simpl. repeat split; [lia|]. right.
      repeat split; assumption.
  - now apply gen_run_accepts in E.
  - now apply gen_inv_run_total in E.
  - right. apply gen_run_raised in E. destruct E as [-> [-> [T R]]].
    repeat split; assumption.
Qed.

(** X3. An approximation is only returned when it passed the final
    test: the value [gen_inv] returns is the approximation of the last
    pass reported (or the initial one) and its sigma is at most the
    tolerance; for [shultz_inv] the sigma is below the tolerance. *)
Theorem returned_approximation_passed_test (original : ndarray)
    (tolerance : float) (max_iterations : Z) (x : ndarray) :
  (gen_inv matrix_rank original tolerance max_iterations = Some x ->
   exists s log,
     gen_inv_run matrix_rank original tolerance max_iterations
     = Returned (Some x) s log /\
     last log (entry_of (initial_locals original)) = (k s, sigma s, x) /\
     (sigma s <=? tolerance) = true) /\
  (shultz_inv lapack_det original tolerance max_iterations = Some x ->
   exists s log,
     shultz_inv_run lapack_det original tolerance max_iterations
     = Returned (Some x) s log /\
     last log (entry_of (initial_locals original)) = (k s, sigma s, x) /\
     (sigma s <? tolerance) = true).
Proof.
  split; intros H.
  - unfold gen_inv in H.
    destruct (gen_inv_run _ _ _ _) as [r s log| | |s log] eqn:E;
      try discriminate.
    simpl in H. subst r. exists s, log. split; [reflexivity|].
    apply gen_run_inv in E.
    destruct E as [[[_ [_ [_ L]]] [_ R]]|[R _]]; [|discriminate].
    destruct (sigma s <=? tolerance); [|discriminate].
    inversion R; subst x. split; [exact L|reflexivity].
  - unfold shultz_inv in H.
    destruct (shultz_inv_run _ _ _ _) as [r s log| | |s log] eqn:E;
      try discriminate.
    simpl in H. subst r. exists s, log. split; [reflexivity|].
    apply shultz_run_inv in E.
    destruct E as [[_ [_ [_ L]]] [_ R]].
    destruct (sigma s <? tolerance); [|discriminate].
    inversion R; subst x. split; [exact L|reflexivity].
Qed.

(** X4. For an m x n matrix (m, n at least 1) every approximation
    [gen_inv] returns is an n x m array, the shape of the transpose;
    [shultz_inv] returns an approximation only for m = n, and it is
    n x n. *)
Theorem result_has_transposed_shape (original : ndarray) (tolerance : float)
    (max_iterations : Z) (m n : nat) (x : ndarray) :
  is_matrix m n original -> (1 <= m)%nat -> (1 <= n)%nat ->
  (gen_inv matrix_rank original tolerance max_iterations = Some x ->
   is_matrix n m x) /\
  (shultz_inv lapack_det original tolerance max_iterations = Some x ->
   m = n /\ is_matrix n n x).
Proof.
  intros H M N. split; intros R.
  - unfold gen_inv in R.
    destruct (gen_inv_run _ _ _ _) as [r s log| | |s log] eqn:E;
      try discriminate.
    simpl in R. subst r. unfold gen_inv_run, gen_while in E.
    apply (while_loop_ind _ _ _ _ (gen_finish_keeps tolerance)
             (fun s _ => is_matrix n m (approx s))) in E.
    + destruct E as [[I [_ F]]|[s1 [_ [_ [_ F]]]]]; [|discriminate].
      unfold gen_finish in F. destruct (_ <=? _); inversion F. now subst x.
    + intros s0 s' log0 I T B. unfold gen_body in B.
      destruct (gen_update _ _ _) as [x'| |] eqn:U; try discriminate.
      inversion B. simpl.
      now apply (ShapeFacts.gen_update_is_matrix matrix_rank m n
                   original (approx s0)).
    + now apply ShapeFacts.initial_approx_is_matrix.
  - unfold shultz_inv in R.
    destruct (shultz_inv_run _ _ _ _) as [r s log| | |s log] eqn:E;
      try discriminate.
    simpl in R. subst r. unfold shultz_inv_run, shultz_while, LA_det in E.
    destruct (Nat.eqb_spec (fst (shape original)) (snd (shape original)))
      as [Q|Q]; [|discriminate].
    assert (MN : m = n).
    { rewrite (ShapeFacts.shape_cols _ _ _ H M) in Q.
      unfold shape in Q. simpl in Q. destruct H as [L _]. lia. }
    subst m. split; [reflexivity|].
    destruct (_ =? 0); [discriminate|].
    apply (while_loop_ind _ _ _ _ (shultz_finish_keeps tolerance)
             (fun s _ => is_matrix n n (approx s))) in E.
    + destruct E as [[I [_ F]]|[s1 [_ [_ [B _]]]]]; [|discriminate].
      unfold shultz_finish in F. destruct (_ <? _); inversion F. now subst x.
    + intros s0 s' log0 I T B. inversion B. simpl.
      now apply ShapeFacts.shultz_update_is_matrix.
    + now apply ShapeFacts.initial_approx_is_matrix.
Qed.

(** X5. A converged result does not depend on the cap: what
    [shultz_inv] returns as an approximation under [max_iterations = N]
    it returns, with the same final state and report, under every larger
    cap; so does [gen_inv] when the final sigma is below the tolerance
    (not merely equal to it). *)
Theorem converged_result_keeps_under_larger_cap (original : ndarray)
    (tolerance : float) (N N' : Z) (x : ndarray) (s : locals)
    (log : list entry) :
  (N <= N')%Z ->
  (shultz_inv_run lapack_det original tolerance N = Returned (Some x) s log ->
   shultz_inv_run lapack_det original tolerance N' = Returned (Some x) s log)
  /\
  (gen_inv_run matrix_rank original tolerance N = Returned (Some x) s log ->
   (sigma s <? tolerance) = true ->
   gen_inv_run matrix_rank original tolerance N' = Returned (Some x) s log).
Proof.
  intros LE. split.
  - intros E. pose proof (shultz_run_inv _ _ _ _ _ _ _ E) as [_ [_ R]].
    destruct (sigma s <? tolerance) eqn:S; [|discriminate].
    revert E. unfold shultz_inv_run, shultz_while.
    destruct (LA_det _ _) as [d|]; [|discriminate].
    destruct (d =? 0); [discriminate|]. intros E.
    eapply while_loop_cap_mono; try exact E; try exact LE.
    + intros s0 s1 B. inversion B. reflexivity.
    + apply shultz_finish_keeps.
    + simpl. lia.
    + now apply Float64Facts.ltb_leb_false.
  - intros E S. unfold gen_inv_run, gen_while in *.
    eapply while_loop_cap_mono; try exact E; try exact LE.
    + apply gen_body_counts.
    + apply gen_finish_keeps.
    + simpl. lia.
    + now apply Float64Facts.ltb_leb_false.
Qed.

(** X6. On a square matrix whose rank test passes, [gen_inv] returns
    every approximation [shultz_inv] returns, from the same final state
    and with the same report: for a square matrix the generalized
    inverse computed is the inverse computed. *)
Theorem gen_inv_agrees_with_shultz_inv (original : ndarray)
    (tolerance : float) (max_iterations : Z) (x : ndarray) (s : locals)
    (log : list entry) :
  fst (shape original) = snd (shape original) ->
  matrix_rank original = Some (fst (shape original)) ->
  shultz_inv_run lapack_det original tolerance max_iterations
  = Returned (Some x) s log ->
  gen_inv_run matrix_rank original tolerance max_iterations
  = Returned (Some x) s log.
Proof.
  intros Q R. unfold shultz_inv_run, shultz_while, gen_inv_run, gen_while.
  destruct (LA_det _ _) as [d|]; [|discriminate].
  destruct (d =? 0); [discriminate|]. intros E.
  rewrite (while_loop_ext (gen_body matrix_rank original)
             (fun s => Next (shultz_body original s))).
  - revert E. apply while_loop_finish_weaken.
    intros s0 log0 s1 log1. unfold shultz_finish, gen_finish.
    destruct (sigma s0 <? tolerance) eqn:L; [|discriminate].
    now rewrite (Float64Facts.ltb_leb _ _ L).
  - intros s0.
    destruct (m_or_n_wide original (fst (shape original))
                (snd (shape original))) as [E1 T];
      [now destruct (shape original)|lia|].
    unfold gen_body, shultz_body.
    rewrite gen_update_full by (now rewrite E1). rewrite T.
    unfold shultz_update, row_update. now rewrite E1.
Qed.

(** X7. Sigma is never negative: in the final state of a call and in
    every reported pass it is at least zero, or NaN. *)
Theorem sigma_never_negative (original : ndarray) (tolerance : float)
    (max_iterations : Z) (r : option ndarray) (s : locals)
    (log : list entry) :
  (gen_inv_run matrix_rank original tolerance max_iterations
   = Returned r s log ->
   nonneg_or_nan (sigma s) = true /\
   Forall (fun x => nonneg_or_nan x = true) (sigmas log)) /\
  (shultz_inv_run lapack_det original tolerance max_iterations
   = Returned r s log ->
   nonneg_or_nan (sigma s) = true /\
   Forall (fun x => nonneg_or_nan x = true) (sigmas log)).
Proof.
  split; intros E;
    [apply gen_run_sigma in E|apply shultz_run_sigma in E];
    destruct E as [P1 P2]; (split;
      [now apply SignFacts.plus_or_nan_nonneg
      |revert P2; apply Forall_impl; apply SignFacts.plus_or_nan_nonneg]).
Qed.


(** X9. A matrix of zeros, and a matrix with a NaN in it, never yield
    an approximation under a tolerance below 1.  The norm is 0 or NaN,
    so [alpha] is an infinity or NaN and the initial approximation is
    NaN in every entry.  [shultz_inv] returns [None]: sigma is NaN
    after its first pass.  [gen_inv] returns [None] when its rank call
    returns, by the rank test or with that NaN in sigma, and when no
    pass is run; when the rank call raises, which [LA.matrix_rank] does
    on an array with a NaN, the [LinAlgError] leaves [gen_inv] in the
    first pass. *)
Theorem zero_or_nan_input_fails (original : ndarray) (tolerance : float)
    (max_iterations : Z) (m n : nat) :
  is_matrix m n original -> (1 <= m)%nat -> (1 <= n)%nat ->
  every_entry is_zero original \/ has_nan original ->
  (tolerance <? 1) = true ->
  let first := {| approx := initial_approx original; sigma := 1; k := 1 |} in
  let entered :=
    loop_test tolerance max_iterations (initial_locals original) in
  every_entry is_nan (initial_approx original) /\
  (shultz_inv lapack_det original tolerance max_iterations = None /\
   forall s log,
     shultz_inv_run lapack_det original tolerance max_iterations
     <> Raised s log) /\
  (forall x s log,
     gen_inv_run matrix_rank original tolerance max_iterations
     <> Returned (Some x) s log) /\
  (matrix_rank original <> None \/ entered = false ->
   exists s log,
     gen_inv_run matrix_rank original tolerance max_iterations
     = Returned None s log) /\
  (matrix_rank original = None -> entered = true ->
   gen_inv_run matrix_rank original tolerance max_iterations
   = Raised first []).
Proof.
  intros H M N B T. cbv zeta.
  pose proof (NanFacts.initial_approx_nan _ B) as X.
  split; [exact X|].
  assert (D : is_nan (norm_inf (approx (initial_locals original))) = true).
  { apply (NanFacts.norm_inf_nan n m); try assumption.
    now apply ShapeFacts.initial_approx_is_matrix. }
  split.
  { split; [|intros s log; apply shultz_run_returns].
    unfold shultz_inv, shultz_inv_run, shultz_while.
    destruct (LA_det _ _) as [d|]; [|reflexivity].
    destruct (d =? 0); [reflexivity|].
    destruct (loop_test tolerance max_iterations (initial_locals original))
      eqn:L.
    - assert (F : exists fuel, Z.to_nat max_iterations = S fuel).
      { apply loop_test_below in L. simpl in L.
        exists (Nat.pred (Z.to_nat max_iterations)). lia. }
      destruct F as [fuel F]. rewrite F.
      assert (S : is_nan (sigma (shultz_body original
                                   (initial_locals original))) = true)
        by now apply NanFacts.relative_change_nan.
      rewrite (while_loop_nan _ _ _ _ _ _ _ _ L eq_refl S); [reflexivity|].
      intros log'. unfold shultz_finish.
      now rewrite (Float64Facts.ltb_nan_l _ _ S).
    - rewrite while_loop_skip by assumption. unfold shultz_finish. simpl.
      now rewrite (Float64Facts.ltb_asym _ _ T). }
  assert (G : match gen_inv_run matrix_rank original tolerance max_iterations
              with
              | Returned r _ _ => r = None
              | Raised s log =>
                  s = {| approx := initial_approx original; sigma := 1;
                         k := 1 |} /\ log = [] /\
                  matrix_rank original = None /\
                  loop_test tolerance max_iterations (initial_locals original)
                  = true
              | _ => False
              end).
  { unfold gen_inv_run, gen_while.
    destruct (loop_test tolerance max_iterations (initial_locals original))
      eqn:L.
    - assert (F : exists fuel, Z.to_nat max_iterations = S fuel).
      { apply loop_test_below in L. simpl in L.
        exists (Nat.pred (Z.to_nat max_iterations)). lia. }
      destruct F as [fuel F]. rewrite F.
      destruct (gen_body matrix_rank original (initial_locals original))
        as [s'|s'|s'] eqn:E.
      + assert (S : is_nan (sigma s') = true).
        { unfold gen_body in E.
          destruct (gen_update _ _ _); try discriminate.
          inversion E. simpl. now apply NanFacts.relative_change_nan. }
        rewrite (while_loop_nan _ _ _ _ _ _ s' _ L E S); [reflexivity|].
        intros log'. unfold gen_finish.
        now rewrite (Float64Facts.leb_nan_l _ _ S).
      + now rewrite (while_loop_return _ _ _ _ _ _ s' _ L E).
      + rewrite (while_loop_raise _ _ _ _ _ _ s' _ L E).
        unfold gen_body in E.
        pose proof (gen_update_rank matrix_rank original
                      (approx (initial_locals original))) as Q.
        destruct (gen_update _ _ _); try discriminate.
        inversion E. repeat split; auto.
    - rewrite while_loop_skip by assumption. unfold gen_finish. simpl.
      now rewrite (Float64Facts.ltb_leb_false _ _ T). }
  split; [|split].
  - intros x s log E. rewrite E in G. discriminate.
  - intros Q.
    destruct (gen_inv_run matrix_rank original tolerance max_iterations)
      as [r s log| | |s log] eqn:E; try contradiction.
    + subst r. now exists s, log.
    + destruct G as [_ [_ [R L]]].
      destruct Q as [Q|Q]; [contradiction|congruence].
  - intros R L. unfold gen_inv_run, gen_while.
    assert (F : exists fuel, Z.to_nat max_iterations = S fuel).
    { apply loop_test_below in L. simpl in L.
      exists (Nat.pred (Z.to_nat max_iterations)). lia. }
    destruct F as [fuel F]. rewrite F.
    apply while_loop_raise; [assumption|].
    unfold gen_body. now rewrite gen_update_raises.
Qed.

(** X10. With a NaN for tolerance no pass is run and no approximation
    is returned: the loop test and both final tests compare with NaN. *)
Theorem nan_tolerance_fails (original : ndarray) (tolerance : float)
    (max_iterations : Z) :
  is_nan tolerance = true ->
  gen_inv_run matrix_rank original tolerance max_iterations
  = Returned None (initial_locals original) [] /\
  (forall d, LA_det lapack_det original = Some d -> (d =? 0) = false ->
     shultz_inv_run lapack_det original tolerance max_iterations
     = Returned None (initial_locals original) []) /\
  shultz_inv lapack_det original tolerance max_iterations = None.
Proof.
  intros N.
  assert (T : loop_test tolerance max_iterations (initial_locals original)
              = false).
  { unfold loop_test. now rewrite (Float64Facts.leb_nan_l _ _ N). }
  assert (S : forall d, LA_det lapack_det original = Some d ->
              (d =? 0) = false ->
              shultz_inv_run lapack_det original tolerance max_iterations
              = Returned None (initial_locals original) []).
  { intros d D Z. unfold shultz_inv_run, shultz_while. rewrite D, Z.
    rewrite while_loop_skip by assumption. unfold shultz_finish.
    assert (L : (sigma (initial_locals original) <? tolerance) = false).
    { rewrite ltb_spec. rewrite Float64Facts.is_nan_spec in N.
      unfold SFltb. destruct (Prim2SF tolerance); try discriminate.
      destruct (Prim2SF _); reflexivity. }
    now rewrite L. }
  split; [|split; [exact S|]].
  - unfold gen_inv_run, gen_while. rewrite while_loop_skip by assumption.
    unfold gen_finish. now rewrite (Float64Facts.leb_nan_r _ _ N).
  - unfold shultz_inv.
    destruct (LA_det lapack_det original) as [d|] eqn:D.
    + destruct (d =? 0) eqn:Z.
      * unfold shultz_inv_run. now rewrite D, Z.
      * now rewrite (S d).
    + unfold shultz_inv_run. now rewrite D.
Qed.

(** X11. A cap of zero or below runs no pass: the call goes straight to
    the final test on sigma = 1, so [gen_inv] returns the initial
    approximation exactly when [1 <= tolerance] and [shultz_inv], past
    its determinant test, exactly when [1 < tolerance]. *)
Theorem nonpositive_cap_runs_no_pass (original : ndarray) (tolerance : float)
    (max_iterations : Z) :
  (max_iterations <= 0)%Z ->
  gen_inv_run matrix_rank original tolerance max_iterations
  = Returned (if 1 <=? tolerance then Some (initial_approx original) else None)
             (initial_locals original) [] /\
  (forall d, LA_det lapack_det original = Some d -> (d =? 0) = false ->
     shultz_inv_run lapack_det original tolerance max_iterations
     = Returned (if 1 <? tolerance then Some (initial_approx original)
                 else None)
                (initial_locals original) []).
Proof.
  intros M.
  assert (T : loop_test tolerance max_iterations (initial_locals original)
              = false).
  { unfold loop_test. simpl.
    destruct (Z.ltb_spec 0 max_iterations); [lia|apply andb_false_r]. }
  split.
  - unfold gen_inv_run, gen_while. rewrite while_loop_skip by assumption.
    unfold gen_finish. simpl. destruct (1 <=? tolerance); reflexivity.
  - intros d D Z. unfold shultz_inv_run, shultz_while. rewrite D, Z.
    rewrite while_loop_skip by assumption.
    unfold shultz_finish. simpl. destruct (1 <? tolerance); reflexivity.
Qed.

End Calls.

(** ** The properties of whole calls on the test data *)

Section CallsOnData.

#[local] Abbreviation rank := Reference.matrix_rank.
#[local] Abbreviation det := Reference.det.

(** X1 on [[2]] with a tolerance of 0.5 and a cap of 2. *)
Lemma shultz_inv_iterations_witness :
  exists r s log,
    shultz_inv_run det Data.two 0.5 2 = Returned r s log /\
    length log = 2%nat /\ k s = 2%Z /\ counters log = [1; 2]%Z.
Proof.
  eassert (E : shultz_inv_run det Data.two 0.5 2 = Returned _ _ _)
    by (vm_compute; reflexivity).
  destruct (shultz_inv_iterations det _ _ _ _ _ _ E) as [_ [K [C _]]].
  do 3 eexists. split; [exact E|].
  split; [reflexivity|]. split; [exact K|exact C].
Defined.

(** X2 on the 3 x 4 example matrix with a cap of 3, on a matrix of
    rank 1, which leaves by the rank test, and on a matrix with a NaN,
    on which the rank call raises. *)
Lemma gen_inv_iterations_witness :
  (exists r s log,
     gen_inv_run rank Data.wide Data.tolerance 3 = Returned r s log /\
     counters log = [1; 2; 3]%Z) /\
  (exists r s log,
     gen_inv_run rank Data.deficient Data.tolerance 3 = Returned r s log /\
     counters log = [] /\ k s = 1%Z) /\
  gen_inv_run rank Inputs.with_nan Data.tolerance 3
  = Raised {| approx := initial_approx Inputs.with_nan; sigma := 1; k := 1 |}
           [].
Proof.
  split; [|split].
  - destruct (gen_inv_iterations rank Data.wide Data.tolerance 3)
      as [[r [s [log [E [_ [C _]]]]]]|[E _]];
      [|vm_compute in E; discriminate].
    exists r, s, log. split; [exact E|]. rewrite C.
    vm_compute in E. inversion E. reflexivity.
  - destruct (gen_inv_iterations rank Data.deficient Data.tolerance 3)
      as [[r [s [log [E [_ [C _]]]]]]|[E _]];
      [|vm_compute in E; discriminate].
    exists r, s, log. split; [exact E|].
    vm_compute in E. inversion E. split; reflexivity.
  - destruct (gen_inv_iterations rank Inputs.with_nan Data.tolerance 3)
      as [[r [s [log [E _]]]]|[E _]];
      [vm_compute in E; discriminate|exact E].
Defined.

(** X3 on the two examples of the source files. *)
Lemma returned_approximation_passed_test_witness :
  (exists x s log,
     gen_inv_run rank Data.wide Data.tolerance Data.max_iterations
     = Returned (Some x) s log /\
     (sigma s <=? Data.tolerance) = true) /\
  (exists x s log,
     shultz_inv_run det Data.square Data.tolerance Data.max_iterations
     = Returned (Some x) s log /\
     (sigma s <? Data.tolerance) = true).
Proof.
  split.
  - eassert (E : gen_inv rank Data.wide Data.tolerance Data.max_iterations
                 = Some _) by (vm_compute; reflexivity).
    destruct (proj1 (returned_approximation_passed_test rank det _ _ _ _) E)
      as [s [log [R [_ S]]]].
    do 3 eexists. split; [exact R|exact S].
  - eassert (E : shultz_inv det Data.square Data.tolerance Data.max_iterations
                 = Some _) by (vm_compute; reflexivity).
    destruct (proj2 (returned_approximation_passed_test rank det _ _ _ _) E)
      as [s [log [R [_ S]]]].
    do 3 eexists. split; [exact R|exact S].
Defined.

Lemma wide_is_matrix : is_matrix 3 4 Data.wide.
Proof. split; [reflexivity|repeat constructor]. Qed.

Lemma square_is_matrix : is_matrix 3 3 Data.square.
Proof. split; [reflexivity|repeat constructor]. Qed.

(** X4 on the two examples of the source files. *)
Lemma result_has_transposed_shape_witness :
  (exists x,
     gen_inv rank Data.wide Data.tolerance Data.max_iterations = Some x /\
     is_matrix 4 3 x) /\
  (exists x,
     shultz_inv det Data.square Data.tolerance Data.max_iterations = Some x /\
     is_matrix 3 3 x).
Proof.
  split.
  - eassert (E : gen_inv rank Data.wide Data.tolerance Data.max_iterations
                 = Some _) by (vm_compute; reflexivity).
    eexists. split; [exact E|].
    refine (proj1 (result_has_transposed_shape rank det Data.wide
                     Data.tolerance Data.max_iterations 3 4 _
                     wide_is_matrix _ _) E); lia.
  - eassert (E : shultz_inv det Data.square Data.tolerance Data.max_iterations
                 = Some _) by (vm_compute; reflexivity).
    eexists. split; [exact E|].
    refine (proj2 (proj2 (result_has_transposed_shape rank det Data.square
                     Data.tolerance Data.max_iterations 3 3 _
                     square_is_matrix _ _) E)); lia.
Defined.

(** X5 on the 3 x 3 example matrix: the result under a cap of 20 is the
    result under the default cap of 1000. *)
Lemma converged_result_keeps_under_larger_cap_witness :
  exists x s log,
    shultz_inv_run det Data.square Data.tolerance 20 = Returned (Some x) s log
    /\
    shultz_inv_run det Data.square Data.tolerance Data.max_iterations
    = Returned (Some x) s log.
Proof.
  eassert (E : shultz_inv_run det Data.square Data.tolerance 20
               = Returned (Some _) _ _) by (vm_compute; reflexivity).
  do 3 eexists. split; [exact E|].
  refine (proj1 (converged_result_keeps_under_larger_cap rank det Data.square
                   Data.tolerance 20 Data.max_iterations _ _ _ _) E).
  vm_compute. discriminate.
Defined.

(** X6 on the 3 x 3 example matrix. *)
Lemma gen_inv_agrees_with_shultz_inv_witness :
  exists x s log,
    shultz_inv_run det Data.square Data.tolerance Data.max_iterations
    = Returned (Some x) s log /\
    gen_inv_run rank Data.square Data.tolerance Data.max_iterations
    = Returned (Some x) s log.
Proof.
  eassert (E : shultz_inv_run det Data.square Data.tolerance
                 Data.max_iterations = Returned (Some _) _ _)
    by (vm_compute; reflexivity).
  do 3 eexists. split; [exact E|].
  exact (gen_inv_agrees_with_shultz_inv rank det Data.square Data.tolerance
           Data.max_iterations _ _ _ eq_refl eq_refl E).
Defined.

(** X7 on the 3 x 4 example matrix. *)
Lemma sigma_never_negative_witness :
  exists r s log,
    gen_inv_run rank Data.wide Data.tolerance 3 = Returned r s log /\
    Forall (fun x => nonneg_or_nan x = true) (sigmas log).
Proof.
  eassert (E : gen_inv_run rank Data.wide Data.tolerance 3 = Returned _ _ _)
    by (vm_compute; reflexivity).
  do 3 eexists. split; [exact E|].
  exact (proj2 (proj1 (sigma_never_negative rank det Data.wide Data.tolerance
                         3 _ _ _) E)).
Defined.


Lemma zeros_is_matrix : is_matrix 2 2 Inputs.zeros.
Proof. split; [reflexivity|repeat constructor]. Qed.

Lemma with_nan_is_matrix : is_matrix 2 2 Inputs.with_nan.
Proof. split; [reflexivity|repeat constructor]. Qed.

Lemma zeros_all_zero : every_entry is_zero Inputs.zeros.
Proof. repeat constructor. Qed.

Lemma with_nan_has_nan : has_nan Inputs.with_nan.
Proof. apply Exists_cons_hd, Exists_cons_tl, Exists_cons_hd. reflexivity. Qed.

(** X9 on the 2 x 2 matrix of zeros, of rank 0, and on a 2 x 2 matrix
    with a NaN, on which the rank call raises. *)
Lemma zero_or_nan_input_fails_witness :
  (exists s log,
     gen_inv_run rank Inputs.zeros Data.tolerance Data.max_iterations
     = Returned None s log) /\
  gen_inv_run rank Inputs.with_nan Data.tolerance Data.max_iterations
  = Raised {| approx := initial_approx Inputs.with_nan; sigma := 1; k := 1 |}
           [] /\
  shultz_inv det Inputs.with_nan Data.tolerance Data.max_iterations = None.
Proof.
  split.
  - destruct (zero_or_nan_input_fails rank det Inputs.zeros
                Data.tolerance Data.max_iterations 2 2 zeros_is_matrix
                (le_S 1 1 (le_n 1)) (le_S 1 1 (le_n 1))
                (or_introl zeros_all_zero) eq_refl)
      as [_ [_ [_ [G _]]]].
    apply G. left. discriminate.
  - destruct (zero_or_nan_input_fails rank det Inputs.with_nan
                Data.tolerance Data.max_iterations 2 2 with_nan_is_matrix
                (le_S 1 1 (le_n 1)) (le_S 1 1 (le_n 1))
                (or_intror with_nan_has_nan) eq_refl)
      as [_ [[S _] [_ [_ G]]]].
    split; [apply G; reflexivity|exact S].
Defined.

(** X10 on the 3 x 3 example matrix. *)
Lemma nan_tolerance_fails_witness :
  gen_inv_run rank Data.square nan Data.max_iterations
  = Returned None (initial_locals Data.square) [] /\
  shultz_inv det Data.square nan Data.max_iterations = None.
Proof.
  destruct (nan_tolerance_fails rank det Data.square nan Data.max_iterations
              eq_refl) as [G [_ S]].
  split; [exact G|exact S].
Defined.

(** X11 with a cap of -5 and the tolerances 2 and 0.5. *)
Lemma nonpositive_cap_runs_no_pass_witness :
  gen_inv_run rank Data.two 2 (-5)
  = Returned (Some (initial_approx Data.two)) (initial_locals Data.two) [] /\
  shultz_inv_run det Data.two 0.5 (-5)
  = Returned None (initial_locals Data.two) [].
Proof.
  split.
  - refine (proj1 (nonpositive_cap_runs_no_pass rank det Data.two 2 (-5) _)).
    lia.
  - refine (proj2 (nonpositive_cap_runs_no_pass rank det Data.two 0.5 (-5) _)
                  2 eq_refl eq_refl).
    lia.
Defined.

End CallsOnData.
